(** * levyt: records and lazily cached result collections

    A shallow embedding of [levyt/records.py]: the [Record] class (one result
    row, keys paired with values) and the [Collection] class (a cache-backed
    view over a one-shot iterator of records), followed by the properties of
    the two classes.

    Python objects are modelled by value.  Exceptions are an explicit error
    type, and every method that touches the collection takes the collection
    and returns it next to its result, since [__next__] mutates it. *)

From Stdlib Require Import String.
From Stdlib Require Import List ZArith Bool Lia PeanoNat.
Import ListNotations.

Local Open Scope string_scope.
Local Open Scope list_scope.

(** ** The fragment of Python the two classes rely on *)

Module Py.

(** Values that occur as column values and as the [default] argument of the
    accessors.  [_is_exception] tells apart instances of [Exception]
    subclasses, the subclasses themselves, and any other class object. *)
Inductive value : Type :=
| VNone
| VBool (b : bool)
| VInt (z : Z)
| VStr (s : string)
| VExcInstance (cls msg : string)
| VExcClass (cls : string)
| VOtherClass (cls : string).

(** The exceptions the module raises or lets through.  [Raised d] is
    [raise default] for a caller-supplied [default]; [LoopBound] is not a
    Python exception: it marks a loop of the model stopped by its iteration
    bound, and [fill_within_bound] and [collect_all] show it never happens. *)
Inductive exn : Type :=
| StopIteration (msg : string)
| IndexError
| KeyError (msg : string)
| ValueError (msg : string)
| TypeError
| Raised (d : value)
| LoopBound.

Inductive result (A : Type) : Type :=
| Ok (a : A)
| Err (e : exn).
Arguments Ok {A} a.
Arguments Err {A} e.

(** [l[i]] for a list [l] and an integer [i]: negative indices count from the
    end, anything outside [-len, len) is an [IndexError]. *)
Definition list_getitem {A : Type} (l : list A) (i : Z) : result A :=
  let len := Z.of_nat (length l) in
  let j := if (i <? 0)%Z then (i + len)%Z else i in
  if ((j <? 0) || (len <=? j))%Z then Err IndexError
  else match nth_error l (Z.to_nat j) with
       | Some a => Ok a
       | None => Err IndexError
       end.

(** [x in l], [l.count(x)] and [l.index(x)] on lists of strings. *)
Fixpoint contains (x : string) (l : list string) : bool :=
  match l with
  | [] => false
  | y :: l' => String.eqb y x || contains x l'
  end.

Fixpoint count (x : string) (l : list string) : nat :=
  match l with
  | [] => O
  | y :: l' => (if String.eqb y x then 1 else 0) + count x l'
  end.

(** [l.index(x)] raises [ValueError] when [x] is absent; [None] stands for
    that case, which [Record.__getitem__] excludes by testing [x in l]. *)
Fixpoint index (x : string) (l : list string) : option nat :=
  match l with
  | [] => None
  | y :: l' => if String.eqb y x then Some O else option_map S (index x l')
  end.

(** [l[start:stop]] with no step: a bound that is [None] is the matching end
    of the list, a negative bound counts from the end, and both are clamped
    to [0, len]. *)
Definition clamp (len x : Z) : Z :=
  if (x <? 0)%Z then Z.max (x + len) 0 else Z.min x len.

Definition slice_bounds (len : Z) (start stop : option Z) : Z * Z :=
  (match start with None => 0%Z | Some x => clamp len x end,
   match stop with None => len | Some x => clamp len x end).

Definition list_slice {A : Type} (l : list A) (start stop : option Z) : list A :=
  let '(s, e) := slice_bounds (Z.of_nat (length l)) start stop in
  firstn (Z.to_nat (e - s)) (skipn (Z.to_nat s) l).

(** [dict(items)]: a later pair with the same key overwrites the value and
    keeps the position of the first one. *)
Fixpoint dict_set (k : string) (v : value) (d : list (string * value))
  : list (string * value) :=
  match d with
  | [] => [(k, v)]
  | (k', v') :: d' =>
      if String.eqb k' k then (k', v) :: d' else (k', v') :: dict_set k v d'
  end.

Definition dict_of_items (items : list (string * value)) : list (string * value) :=
  fold_left (fun d kv => dict_set (fst kv) (snd kv) d) items [].

(** [d.get(k)] on a dictionary. *)
Fixpoint dict_get (k : string) (d : list (string * value)) : option value :=
  match d with
  | [] => None
  | (k', v') :: d' => if String.eqb k' k then Some v' else dict_get k d'
  end.

End Py.

Import Py.

(** ** class Record *)

Module Record.

Record Record : Type := mkRecord {
  _keys : list string;
  _values : list value
}.

(** [__init__] asserts that there are as many keys as values. *)
Definition wf (r : Record) : Prop := length (_keys r) = length (_values r).

Definition keys (r : Record) : list string := _keys r.
Definition values (r : Record) : list value := _values r.

(** The key of [__getitem__] is [Union[str, int]]. *)
Inductive key : Type :=
| KInt (i : Z)
| KStr (s : string).

Definition multiple_msg (k : string) : string :=
  String.append "Record contains multiple '" (String.append k "' fields.").
Definition missing_msg (k : string) : string :=
  String.append "Record contains no '" (String.append k "' field.").

Definition __getitem__ (r : Record) (k : key) : result value :=
  match k with
  | KInt i => list_getitem (values r) i
  | KStr s =>
      if contains s (keys r) then
        if (1 <? count s (keys r))%nat then Err (KeyError (multiple_msg s))
        else match index s (keys r) with
             | Some i => list_getitem (values r) (Z.of_nat i)
             | None => Err (ValueError "is not in list")
             end
      else Err (KeyError (missing_msg s))
  end.

(** [get] catches [KeyError], and nothing else. *)
Definition get (r : Record) (k : key) (default : value) : result value :=
  match __getitem__ r k with
  | Err (KeyError _) => Ok default
  | res => res
  end.

(** [dict(ordered=...)]: the mapping built from [zip(keys, values)]. *)
Definition dict (r : Record) : list (string * value) :=
  dict_of_items (combine (keys r) (values r)).

(** What attribute access on a record comes to.  [__getattr__] turns a
    [KeyError] into [AttributeError(e)]; [export] goes on with a call of the
    method [format] on the value it got for [self.data], which is left to
    that value. *)
Inductive outcome : Type :=
| Returns (v : value)
| Raises (e : exn)
| RaisesAttributeError (cause : exn)
| CallsFormat (data : value) (format : string).

(** [__getattr__] runs for a name that is neither a slot nor defined on the
    class. *)
Definition __getattr__ (r : Record) (key : string) : outcome :=
  match __getitem__ r (KStr key) with
  | Ok v => Returns v
  | Err (KeyError msg) => RaisesAttributeError (KeyError msg)
  | Err e => Raises e
  end.

(** [export] reads [self.data]; the class has [dataset] but no [data], so
    the name goes to [__getattr__]. *)
Definition export (r : Record) (format : string) : outcome :=
  match __getattr__ r "data" with
  | Returns v => CallsFormat v format
  | o => o
  end.

End Record.

(** ** class Collection *)

Module Collection.

(** The iterator handed to [Collection(...)]: a generator or a list iterator
    over finitely many records.  [next] on it hands out the records left, in
    order, and raises [StopIteration] from then on.  The two counters are
    ghost state: how many calls of [next] returned a record, and how many
    raised [StopIteration]. *)
Record producer : Type := mkProducer {
  remaining : list Record.Record;
  yielded : nat;
  stops : nat
}.

Definition iter_of (rows : list Record.Record) : producer :=
  {| remaining := rows; yielded := 0; stops := 0 |}.

Definition producer_next (p : producer) : option Record.Record * producer :=
  match remaining p with
  | r :: rest =>
      (Some r, {| remaining := rest; yielded := S (yielded p); stops := stops p |})
  | [] =>
      (None, {| remaining := []; yielded := yielded p; stops := S (stops p) |})
  end.

(** Every call of [next(self._rows)] so far. *)
Definition pulls (p : producer) : nat := yielded p + stops p.

Record Collection : Type := mkCollection {
  _rows : producer;
  _all_rows : list Record.Record;
  pending : bool
}.

Definition __init__ (rows : producer) : Collection :=
  {| _rows := rows; _all_rows := []; pending := true |}.

Definition __len__ (c : Collection) : nat := length (_all_rows c).

Definition no_more_rows : string := "Collection contains no more rows.".

Definition __next__ (c : Collection) : result Record.Record * Collection :=
  match producer_next (_rows c) with
  | (Some record, p) =>
      (Ok record,
       {| _rows := p; _all_rows := _all_rows c ++ [record]; pending := pending c |})
  | (None, p) =>
      (Err (StopIteration no_more_rows),
       {| _rows := p; _all_rows := _all_rows c; pending := false |})
  end.

(** [next] is [__next__]. *)
Definition next (c : Collection) : result Record.Record * Collection := __next__ c.

(** The key of [__getitem__]: an integer or a slice object without a step. *)
Inductive key : Type :=
| KInt (i : Z)
| KSlice (start stop : option Z).

(** The condition [len(self) < key.stop or key.stop is None].  The left
    operand is evaluated first, and comparing an [int] with [None] raises
    [TypeError]. *)
Definition int_lt (n : nat) (x : option Z) : result bool :=
  match x with
  | Some z => Ok (Z.of_nat n <? z)%Z
  | None => Err TypeError
  end.

Definition is_None (x : option Z) : bool :=
  match x with None => true | Some _ => false end.

Definition loop_cond (stop : option Z) (c : Collection) : result bool :=
  match int_lt (__len__ c) stop with
  | Ok true => Ok true
  | Ok false => Ok (is_None stop)
  | Err e => Err e
  end.

(** The [while] loop of [__getitem__], with a bound on its iterations. *)
Fixpoint fill (bound : nat) (stop : option Z) (c : Collection)
  : result unit * Collection :=
  match loop_cond stop c with
  | Err e => (Err e, c)
  | Ok false => (Ok tt, c)
  | Ok true =>
      match bound with
      | O => (Err LoopBound, c)
      | S bound' =>
          match next c with
          | (Ok _, c') => fill bound' stop c'
          | (Err (StopIteration _), c') => (Ok tt, c')
          | (Err e, c') => (Err e, c')
          end
      end
  end.

(** The part of [__getitem__] that both kinds of key share, for the slice
    [start:stop]: the loop, then [rows = self._all_rows[key]].  Each
    iteration of the loop that does not leave it takes a record from the
    producer, so one more iteration than the producer has records is enough. *)
Definition fetch (start stop : option Z) (c : Collection)
  : result (list Record.Record) * Collection :=
  match fill (S (length (remaining (_rows c)))) stop c with
  | (Err e, c') => (Err e, c')
  | (Ok _, c') => (Ok (list_slice (_all_rows c') start stop), c')
  end.

(** [self[i]] for an integer [i]: the key becomes [slice(i, i + 1)] and the
    answer is [rows[0]]. *)
Definition getitem_int (i : Z) (c : Collection) : result Record.Record * Collection :=
  match fetch (Some i) (Some (i + 1)%Z) c with
  | (Err e, c') => (Err e, c')
  | (Ok rows, c') => (list_getitem rows 0, c')
  end.

(** [self[start:stop]]: a new [Collection] over [iter(rows)]. *)
Definition getitem_slice (start stop : option Z) (c : Collection)
  : result Collection * Collection :=
  match fetch start stop c with
  | (Err e, c') => (Err e, c')
  | (Ok rows, c') => (Ok (__init__ (iter_of rows)), c')
  end.

Inductive item : Type :=
| IRecord (r : Record.Record)
| ICollection (c : Collection).

Definition lift {A B : Type} (f : A -> B) (x : result A * Collection)
  : result B * Collection :=
  match x with
  | (Ok a, c) => (Ok (f a), c)
  | (Err e, c) => (Err e, c)
  end.

Definition __getitem__ (k : key) (c : Collection) : result item * Collection :=
  match k with
  | KInt i => lift IRecord (getitem_int i c)
  | KSlice start stop => lift ICollection (getitem_slice start stop c)
  end.

(** The generator [__iter__] returns.  [Running i] is suspended with local
    variable [i]: at the start ([i = 0]) or at a [yield], where the pending
    [i += 1] is counted in already.  [Finished] is after its [return]. *)
Inductive iterator : Type :=
| Running (i : nat)
| Finished.

Definition __iter__ (c : Collection) : iterator := Running 0.

(** [next(it)] for a generator [it] made by [__iter__]: one turn of its
    loop, up to the next [yield] or to the [return]. *)
Definition iter_next (it : iterator) (c : Collection)
  : result Record.Record * iterator * Collection :=
  match it with
  | Finished => (Err (StopIteration ""), Finished, c)
  | Running i =>
      if (i <? __len__ c)%nat then
        match getitem_int (Z.of_nat i) c with
        | (Ok r, c') => (Ok r, Running (S i), c')
        | (Err e, c') => (Err e, Finished, c')
        end
      else
        match next c with
        | (Ok r, c') => (Ok r, Running (S i), c')
        | (Err (StopIteration _), c') => (Err (StopIteration ""), Finished, c')
        | (Err e, c') => (Err e, Finished, c')
        end
  end.

(** [list(self)]: a fresh generator run until it stops.  It yields at most
    once per record, cached or not, and then returns. *)
Fixpoint collect (bound : nat) (it : iterator) (acc : list Record.Record) (c : Collection)
  : result (list Record.Record) * Collection :=
  match bound with
  | O => (Err LoopBound, c)
  | S bound' =>
      match iter_next it c with
      | (Ok r, it', c') => collect bound' it' (acc ++ [r]) c'
      | (Err (StopIteration _), _, c') => (Ok acc, c')
      | (Err e, _, c') => (Err e, c')
      end
  end.

Definition list_self (c : Collection) : result (list Record.Record) * Collection :=
  collect (S (__len__ c + length (remaining (_rows c)))) (__iter__ c) [] c.

(** What the accessors hand back: a record, a record as a dictionary, or the
    caller's [default]. *)
Inductive answer : Type :=
| ARecord (r : Record.Record)
| ADict (ordered : bool) (d : list (string * value))
| AValue (v : value).

Definition as_answer (as_dict ordered : bool) (r : Record.Record) : answer :=
  if as_dict then ADict ordered (Record.dict r) else ARecord r.

Definition all (as_dict ordered : bool) (c : Collection)
  : result (list answer) * Collection :=
  lift (map (as_answer as_dict ordered)) (list_self c).

Definition _is_exception (obj : value) : bool :=
  match obj with
  | VExcInstance _ _ => true
  | VExcClass _ => true
  | _ => false
  end.

Definition first (default : value) (as_dict ordered : bool) (c : Collection)
  : result answer * Collection :=
  match getitem_int 0 c with
  | (Err IndexError, c') =>
      if _is_exception default then (Err (Raised default), c')
      else (Ok (AValue default), c')
  | (Err e, c') => (Err e, c')
  | (Ok record, c') => (Ok (as_answer as_dict ordered record), c')
  end.

Definition more_than_one_row : string :=
  "Collection contains more than one row, exactly one row expected.".

Definition one (default : value) (as_dict ordered : bool) (c : Collection)
  : result answer * Collection :=
  match getitem_int 1 c with
  | (Err IndexError, c') => first default as_dict ordered c'
  | (Err e, c') => (Err e, c')
  | (Ok _, c') => (Err (ValueError more_than_one_row), c')
  end.

(** [scalar] calls [self.one()] with no argument, so [record] is a [Record],
    which is true as a condition, or [None]; [scalar_spec] shows that the
    last case never applies. *)
Definition scalar (default : value) (c : Collection) : result value * Collection :=
  match one VNone false false c with
  | (Err e, c') => (Err e, c')
  | (Ok (ARecord record), c') => (Record.__getitem__ record (Record.KInt 0), c')
  | (Ok (AValue VNone), c') => (Ok default, c')
  | (Ok _, c') => (Err TypeError, c')
  end.

(** *** Programs over one collection

    A caller holds one [Collection], the generators it got from [iter], and
    calls methods in any order.  For every generator the ghost fields record
    how often [next] was called on it and what it yielded.  The methods left
    out are made of the ones here: [dict] is [all] with [as_dict], and
    [dataset] and [export] reach the collection through [list(self)],
    [self[0]] and [all]. *)
Record cursor : Type := mkCursor {
  state : iterator;
  calls : nat;
  seen : list Record.Record
}.

Record program_state : Type := mkState {
  coll : Collection;
  cursors : list cursor
}.

Inductive call : Type :=
| CallIter
| CallNextOf (k : nat)
| CallNext
| CallGetitem (k : key)
| CallFirst (default : value) (as_dict ordered : bool)
| CallOne (default : value) (as_dict ordered : bool)
| CallScalar (default : value)
| CallAll (as_dict ordered : bool)
| CallLen.

Definition cursor_next (cu : cursor) (c : Collection) : cursor * Collection :=
  match iter_next (state cu) c with
  | (Ok r, it', c') =>
      ({| state := it'; calls := S (calls cu); seen := seen cu ++ [r] |}, c')
  | (Err _, it', c') =>
      ({| state := it'; calls := S (calls cu); seen := seen cu |}, c')
  end.

(** [next] on the [k]-th generator; the others are left as they are. *)
Fixpoint cursors_next (k : nat) (cus : list cursor) (c : Collection)
  : list cursor * Collection :=
  match cus, k with
  | [], _ => ([], c)
  | cu :: rest, O => let '(cu', c') := cursor_next cu c in (cu' :: rest, c')
  | cu :: rest, S k' => let '(rest', c') := cursors_next k' rest c in (cu :: rest', c')
  end.

(** One call; its result, a value or an exception, goes to the caller and
    the program goes on. *)
Definition exec (o : call) (s : program_state) : program_state :=
  match o with
  | CallIter =>
      {| coll := coll s;
         cursors := cursors s ++ [{| state := __iter__ (coll s); calls := 0; seen := [] |}] |}
  | CallNextOf k =>
      let '(cus, c') := cursors_next k (cursors s) (coll s) in
      {| coll := c'; cursors := cus |}
  | CallNext => {| coll := snd (next (coll s)); cursors := cursors s |}
  | CallGetitem k => {| coll := snd (__getitem__ k (coll s)); cursors := cursors s |}
  | CallFirst d a o => {| coll := snd (first d a o (coll s)); cursors := cursors s |}
  | CallOne d a o => {| coll := snd (one d a o (coll s)); cursors := cursors s |}
  | CallScalar d => {| coll := snd (scalar d (coll s)); cursors := cursors s |}
  | CallAll a o => {| coll := snd (all a o (coll s)); cursors := cursors s |}
  | CallLen => s
  end.

Definition run (os : list call) (s : program_state) : program_state :=
  fold_left (fun s o => exec o s) os s.

(** The program starts with the collection and no generator. *)
Definition start (c : Collection) : program_state :=
  {| coll := c; cursors := [] |}.

(** All the records of the collection: the cached ones, then the ones the
    producer still holds. *)
Definition all_records (c : Collection) : list Record.Record :=
  _all_rows c ++ remaining (_rows c).

(** *** What the methods keep

    [extends c c']: [c'] is [c] after some pulls.  The records [taken] from
    the producer were appended to the cache in the order they came, the ghost
    counter of successful pulls grew by their number, and nothing else
    happened to cache or producer. *)
Definition extends (c c' : Collection) : Prop :=
  exists taken : list Record.Record,
    _all_rows c' = _all_rows c ++ taken /\
    remaining (_rows c) = taken ++ remaining (_rows c') /\
    yielded (_rows c') = yielded (_rows c) + length taken /\
    stops (_rows c) <= stops (_rows c').

(** [pending] is only ever set to [False], and only when the producer has
    raised [StopIteration]. *)
Definition settled (c : Collection) : Prop :=
  pending c = false -> remaining (_rows c) = [].

(** The collection after one more failed pull. *)
Definition stopped (c : Collection) : Collection :=
  {| _rows := {| remaining := [];
                 yielded := yielded (_rows c);
                 stops := S (stops (_rows c)) |};
     _all_rows := _all_rows c;
     pending := false |}.

(** Where a generator stands after [n] calls of [next], for a collection
    whose records are [rows]. *)
Definition cursor_after (rows : list Record.Record) (n : nat) : iterator :=
  if (n <=? length rows)%nat then Running n else Finished.

(** The collection after [n] calls of [__next__], whatever they returned. *)
Fixpoint pulled (n : nat) (c : Collection) : Collection :=
  match n with
  | O => c
  | S n' => pulled n' (snd (__next__ c))
  end.

(** What holds of every generator of a program over a collection whose
    records are [rows]: it has yielded the first records, as many as [next]
    was called on it, all of them are in the cache, and it is suspended
    behind the last one it yielded or has returned. *)
Definition cursor_ok (rows : list Record.Record) (c : Collection) (cu : cursor) : Prop :=
  seen cu = firstn (calls cu) rows /\
  state cu = cursor_after rows (calls cu) /\
  Nat.min (calls cu) (length rows) <= __len__ c.

End Collection.

(** ** Sample data: the rows [Record(['id'], [i])] of the test suite and the
    record with a repeated column. *)

Module Samples.

Definition row (i : Z) : Record.Record :=
  {| Record._keys := ["id"]; Record._values := [VInt i] |}.

Definition contact : Record.Record :=
  {| Record._keys := ["id"; "email"; "email"];
     Record._values := [VInt 1; VStr "a"; VStr "b"] |}.

Definition collection_of (rows : list Record.Record) : Collection.Collection :=
  Collection.__init__ (Collection.iter_of rows).

End Samples.

(** ** database.py: [Connection] and [Database] over SQLAlchemy

    The engine, its connections and transactions belong to SQLAlchemy.  A
    call into it is an event; the log of the events is the state of the
    world, and whether a call raises is up to the library: [fails] says so
    from the log so far and the call, and everything below holds for every
    [fails].  [Database.open] is kept next to the log.  The flag
    [Connection.open] is written by [Connection.__init__] and [close] and
    read by [__repr__] only; it is left out. *)

Module Sql.

Inductive event : Type :=
| Connect
| Execute (query : string)
| Begin
| Commit
| Rollback
| Close
| Dispose.

(** [ResourceClosedError] is raised by [Database.get_connection];
    [LibraryError e] is whatever the call [e] raised; [UserError] is an
    exception raised by the caller's code inside a [with] block. *)
Inductive error : Type :=
| ResourceClosedError (msg : string)
| LibraryError (e : event)
| UserError (name : string).

Record world : Type := mkWorld {
  log : list event;
  db_open : bool
}.

Definition M (A : Type) : Type := world -> (A + error) * world.

Definition ret {A : Type} (a : A) : M A := fun w => (inl a, w).

Definition bind {A B : Type} (m : M A) (f : A -> M B) : M B :=
  fun w => match m w with
           | (inl a, w') => f a w'
           | (inr e, w') => (inr e, w')
           end.

(** [try: body finally: final]: [final] always runs, and what it raises
    takes the place of the outcome of [body]. *)
Definition try_finally {A : Type} (body : M A) (final : M unit) : M A :=
  fun w => match body w with
           | (r, w') => match final w' with
                        | (inl _, w'') => (r, w'')
                        | (inr e, w'') => (inr e, w'')
                        end
           end.

(** [try: body except: handler], with a bare [except]. *)
Definition try_except {A : Type} (body handler : M A) : M A :=
  fun w => match body w with
           | (inl a, w') => (inl a, w')
           | (inr _, w') => handler w'
           end.

Section Library.

Variable fails : list event -> event -> bool.

Definition call (e : event) : M unit :=
  fun w =>
    let w' := {| log := log w ++ [e]; db_open := db_open w |} in
    if fails (log w) e then (inr (LibraryError e), w') else (inl tt, w').

End Library.

End Sql.

Module Connection.

Import Sql.

Section Methods.

Variable fails : list event -> event -> bool.

(** The rows a cursor gives, as records over the keys of the cursor, for
    the log at the time of the query and the query. *)
Variable cursor : list event -> string -> list Record.Record.

Definition close : M unit := call fails Close.

Definition execute (query : string) : M unit := call fails (Execute query).

Definition transaction : M unit := call fails Begin.

(** [query] executes and wraps the generator over the cursor; the
    generator has not produced anything yet. *)
Definition query (query : string) : M Collection.Collection :=
  bind (call fails (Execute query))
       (fun _ w => (inl (Collection.__init__ (Collection.iter_of (cursor (log w) query))), w)).

(** [with conn: body]: [__enter__] returns [self], and [__exit__] returns
    what [close] returns, [None], so an exception of [body] goes on after
    the connection is closed. *)
Definition with_ {A : Type} (body : M A) : M A := try_finally body close.

End Methods.

End Connection.

Module Database.

Import Sql.

Section Methods.

Variable fails : list event -> event -> bool.
Variable cursor : list event -> string -> list Record.Record.

Definition close : M unit :=
  bind (call fails Dispose)
       (fun _ w => (inl tt, {| log := log w; db_open := false |})).

Definition get_connection : M unit :=
  fun w =>
    if db_open w then call fails Connect w
    else (inr (ResourceClosedError "db closed"), w).

Definition execute (query : string) : M unit :=
  bind get_connection (fun _ => Connection.with_ fails (Connection.execute fails query)).

Definition query (query : string) : M Collection.Collection :=
  bind get_connection
       (fun _ => Connection.with_ fails (Connection.query fails cursor query)).

(** [with db.transaction() as conn: body].  The context manager runs the
    generator up to its [yield], then [body], then resumes the generator:
    at the [yield] with the exception of [body] thrown in, or after it.
    When the generator ends without raising, an exception of [body] is
    suppressed. *)
Definition transaction (body : M unit) : M unit :=
  bind get_connection (fun _ =>
  bind (Connection.transaction fails) (fun _ =>
  try_finally
    (try_except (bind body (fun _ => call fails Commit)) (call fails Rollback))
    (Connection.close fails))).

(** [with db: body]: [__exit__] closes the database. *)
Definition with_ {A : Type} (body : M A) : M A := try_finally body close.

End Methods.

End Database.

(** * Properties *)

(** ** Lists as Python sees them *)

Section PyLists.

Context {A : Type}.

Lemma list_getitem_nonneg (l : list A) (i : Z) :
  (0 <= i < Z.of_nat (length l))%Z ->
  exists a, nth_error l (Z.to_nat i) = Some a /\ list_getitem l i = Ok a.
Proof.
  intros Hi. unfold list_getitem.
  destruct (Z.ltb_spec i 0) as [Hn | Hn]; [lia |].
  destruct (Z.ltb_spec i 0) as [Hn' | _]; [lia |].
  destruct (Z.leb_spec (Z.of_nat (length l)) i) as [Hl | _]; [lia |].
  cbn [orb].
  destruct (nth_error l (Z.to_nat i)) as [a |] eqn:E.
  - exists a. split; reflexivity.
  - apply nth_error_None in E. lia.
Qed.

Lemma list_getitem_negative (l : list A) (i : Z) :
  (- Z.of_nat (length l) <= i < 0)%Z ->
  exists a, nth_error l (Z.to_nat (i + Z.of_nat (length l))) = Some a /\
            list_getitem l i = Ok a.
Proof.
  intros Hi. unfold list_getitem.
  destruct (Z.ltb_spec i 0) as [_ | Hn]; [| lia].
  destruct (Z.ltb_spec (i + Z.of_nat (length l)) 0) as [Hn' | _]; [lia |].
  destruct (Z.leb_spec (Z.of_nat (length l)) (i + Z.of_nat (length l))) as [Hl | _];
    [lia |].
  cbn [orb].
  destruct (nth_error l (Z.to_nat (i + Z.of_nat (length l)))) as [a |] eqn:E.
  - exists a. split; reflexivity.
  - apply nth_error_None in E. lia.
Qed.

Lemma list_getitem_outside (l : list A) (i : Z) :
  (i < - Z.of_nat (length l) \/ Z.of_nat (length l) <= i)%Z ->
  list_getitem l i = Err IndexError.
Proof.
  intros Hi. unfold list_getitem.
  destruct (Z.ltb_spec i 0) as [Hn | Hn].
  - destruct (Z.ltb_spec (i + Z.of_nat (length l)) 0) as [_ | Hn']; [reflexivity | lia].
  - destruct (Z.ltb_spec i 0) as [Hn' | _]; [lia |].
    destruct (Z.leb_spec (Z.of_nat (length l)) i) as [_ | Hl]; [reflexivity | lia].
Qed.

Lemma list_getitem_head (l : list A) :
  list_getitem l 0 = match l with a :: _ => Ok a | [] => Err IndexError end.
Proof.
  destruct l as [| a l]; [reflexivity |].
  unfold list_getitem. cbn [length].
  destruct (Z.leb_spec (Z.of_nat (S (length l))) 0) as [Hl | _]; [lia |].
  reflexivity.
Qed.

End PyLists.

Lemma contains_count (x : string) (l : list string) :
  contains x l = true <-> (0 < count x l)%nat.
Proof.
  induction l as [| y l IH]; cbn.
  - split; [discriminate | lia].
  - destruct (String.eqb y x); cbn; [split; [lia | reflexivity] | exact IH].
Qed.

Lemma index_position (x : string) (l : list string) (i : nat) :
  index x l = Some i -> nth_error l i = Some x.
Proof.
  revert i. induction l as [| y l IH]; cbn; intros i E; [discriminate |].
  destruct (String.eqb_spec y x) as [-> | _].
  - injection E as <-. reflexivity.
  - destruct (index x l) as [j |]; cbn in E; [| discriminate].
    injection E as <-. cbn. apply IH. reflexivity.
Qed.

Lemma count_position (x : string) (l : list string) (j : nat) :
  nth_error l j = Some x -> (0 < count x l)%nat.
Proof.
  revert j. induction l as [| y l IH]; intros [| j]; cbn; try discriminate.
  - intros [= ->]. rewrite String.eqb_refl. lia.
  - intros E. apply IH in E. lia.
Qed.

Lemma index_present (x : string) (l : list string) :
  (0 < count x l)%nat -> exists i, index x l = Some i.
Proof.
  induction l as [| y l IH]; cbn; [lia |].
  destruct (String.eqb y x); cbn; intros H.
  - exists O. reflexivity.
  - destruct (IH H) as [i ->]. exists (S i). reflexivity.
Qed.

Lemma index_unique (x : string) (l : list string) (i j : nat) :
  count x l = 1%nat -> index x l = Some i -> nth_error l j = Some x -> j = i.
Proof.
  revert i j. induction l as [| y l IH]; cbn; intros i j Hc Hi Hj; [discriminate |].
  destruct (String.eqb_spec y x) as [-> | Hne].
  - injection Hi as <-. destruct j as [| j]; [reflexivity |].
    cbn in Hj. apply count_position in Hj. lia.
  - destruct (index x l) as [i' |]; cbn in Hi; [| discriminate].
    injection Hi as <-. destruct j as [| j]; cbn in Hj.
    + congruence.
    + f_equal. apply IH; [exact Hc | reflexivity | exact Hj].
Qed.

(** ** Record *)

(** C9.  Lookup in a record whose keys and values have the same length.
    By an integer [i] it is [values[i]]: the value at position [i] when
    [0 <= i < len], the value at position [len + i] when [-len <= i < 0]
    (Python counts a negative index from the end), and [IndexError] outside
    [-len, len).  By a name it is [KeyError] ("multiple fields") when the
    name occurs more than once among the keys, [KeyError] ("no field") when
    it does not occur, and otherwise the value at the one position where the
    name occurs. *)
Theorem record_lookup (r : Record.Record) (Hwf : Record.wf r) :
  let len := Z.of_nat (length (Record.values r)) in
  (forall i : Z,
      ((0 <= i < len)%Z ->
       exists v, nth_error (Record.values r) (Z.to_nat i) = Some v /\
                 Record.__getitem__ r (Record.KInt i) = Ok v) /\
      ((- len <= i < 0)%Z ->
       exists v, nth_error (Record.values r) (Z.to_nat (i + len)) = Some v /\
                 Record.__getitem__ r (Record.KInt i) = Ok v) /\
      ((i < - len \/ len <= i)%Z ->
       Record.__getitem__ r (Record.KInt i) = Err IndexError)) /\
  (forall s : string,
      ((1 < count s (Record.keys r))%nat ->
       Record.__getitem__ r (Record.KStr s) = Err (KeyError (Record.multiple_msg s))) /\
      (count s (Record.keys r) = 0%nat ->
       Record.__getitem__ r (Record.KStr s) = Err (KeyError (Record.missing_msg s))) /\
      (count s (Record.keys r) = 1%nat ->
       exists (i : nat) (v : value),
         nth_error (Record.keys r) i = Some s /\
         (forall j, nth_error (Record.keys r) j = Some s -> j = i) /\
         nth_error (Record.values r) i = Some v /\
         Record.__getitem__ r (Record.KStr s) = Ok v)).
Proof.
  intros len. split.
  - intros i. cbn [Record.__getitem__]. repeat split.
    + apply list_getitem_nonneg.
    + apply list_getitem_negative.
    + apply list_getitem_outside.
  - intros s. cbn [Record.__getitem__]. repeat split.
    + intros Hc.
      assert (Hin : contains s (Record.keys r) = true) by (apply contains_count; lia).
      rewrite Hin. apply Nat.ltb_lt in Hc. rewrite Hc. reflexivity.
    + intros Hc.
      destruct (contains s (Record.keys r)) eqn:Hin; [| reflexivity].
      apply contains_count in Hin. lia.
    + intros Hc.
      assert (Hin : contains s (Record.keys r) = true) by (apply contains_count; lia).
      rewrite Hin.
      destruct (Nat.ltb_spec 1 (count s (Record.keys r))) as [Hlt | _]; [lia |].
      destruct (index_present s (Record.keys r)) as [i Hi]; [lia |].
      rewrite Hi. pose proof (index_position _ _ _ Hi) as Hk.
      assert (Hlen : (i < length (Record.values r))%nat).
      { unfold Record.wf in Hwf. unfold Record.values, Record.keys in *.
        rewrite <- Hwf. apply nth_error_Some. congruence. }
      destruct (list_getitem_nonneg (Record.values r) (Z.of_nat i)) as (v & Hv & Hg);
        [lia |].
      rewrite Nat2Z.id in Hv.
      exists i, v. repeat split; try assumption.
      intros j Hj. eapply index_unique; eassumption.
Qed.

(** C10.  When a name occurs more than once among the keys of a record,
    [__getitem__] raises the "multiple fields" [KeyError] and [get] turns it
    into [default], which is also what [get] returns for a name that does not
    occur at all. *)
Theorem record_get_duplicate (r : Record.Record) (s : string) (default : value) :
  (1 < count s (Record.keys r))%nat ->
  Record.__getitem__ r (Record.KStr s) = Err (KeyError (Record.multiple_msg s)) /\
  Record.get r (Record.KStr s) default = Ok default /\
  (forall s', count s' (Record.keys r) = 0%nat ->
              Record.get r (Record.KStr s') default = Ok default).
Proof.
  intros Hc.
  assert (Hdup : Record.__getitem__ r (Record.KStr s)
                 = Err (KeyError (Record.multiple_msg s))).
  { cbn [Record.__getitem__].
    assert (Hin : contains s (Record.keys r) = true) by (apply contains_count; lia).
    rewrite Hin. apply Nat.ltb_lt in Hc. rewrite Hc. reflexivity. }
  split; [exact Hdup |]. split.
  - unfold Record.get. rewrite Hdup. reflexivity.
  - intros s' Hc'. unfold Record.get. cbn [Record.__getitem__].
    destruct (contains s' (Record.keys r)) eqn:Hin; [| reflexivity].
    apply contains_count in Hin. lia.
Qed.

(** ** Collection *)

Import Collection.

(** *** One pull *)

Lemma next_record (c : Collection) (r : Record.Record) (rest : list Record.Record) :
  remaining (_rows c) = r :: rest ->
  next c = (Ok r,
            {| _rows := {| remaining := rest;
                           yielded := S (yielded (_rows c));
                           stops := stops (_rows c) |};
               _all_rows := _all_rows c ++ [r];
               pending := pending c |}).
Proof.
  intros E. unfold next, __next__, producer_next. rewrite E. reflexivity.
Qed.

Lemma next_exhausted (c : Collection) :
  remaining (_rows c) = [] ->
  next c = (Err (StopIteration no_more_rows), stopped c).
Proof.
  intros E. unfold next, __next__, producer_next, stopped. rewrite E. reflexivity.
Qed.

Lemma extends_refl (c : Collection) : extends c c.
Proof.
  exists []. rewrite app_nil_r. cbn. repeat split; lia.
Qed.

Lemma extends_trans (c1 c2 c3 : Collection) :
  extends c1 c2 -> extends c2 c3 -> extends c1 c3.
Proof.
  intros (t1 & Ha1 & Hr1 & Hy1 & Hs1) (t2 & Ha2 & Hr2 & Hy2 & Hs2).
  exists (t1 ++ t2). rewrite length_app.
  repeat split.
  - rewrite Ha2, Ha1, app_assoc. reflexivity.
  - rewrite Hr1, Hr2, app_assoc. reflexivity.
  - lia.
  - lia.
Qed.

Lemma extends_all_records (c c' : Collection) :
  extends c c' -> all_records c' = all_records c.
Proof.
  intros (t & Ha & Hr & _). unfold all_records.
  rewrite Ha, Hr, app_assoc. reflexivity.
Qed.

Lemma extends_len (c c' : Collection) :
  extends c c' -> __len__ c <= __len__ c'.
Proof.
  intros (t & Ha & _). unfold __len__. rewrite Ha, length_app. lia.
Qed.

Lemma extends_stopped (c : Collection) :
  remaining (_rows c) = [] -> extends c (stopped c).
Proof.
  intros E. exists []. cbn. rewrite app_nil_r, E. repeat split; lia.
Qed.

Lemma next_extends (c : Collection) : extends c (snd (next c)).
Proof.
  destruct (remaining (_rows c)) as [| r rest] eqn:E.
  - rewrite (next_exhausted c E). apply extends_stopped, E.
  - rewrite (next_record c r rest E). exists [r]. cbn.
    repeat split; try lia. exact E.
Qed.

Lemma next_settled (c : Collection) : settled c -> settled (snd (next c)).
Proof.
  intros Hs.
  destruct (remaining (_rows c)) as [| r rest] eqn:E.
  - rewrite (next_exhausted c E). intros _. reflexivity.
  - rewrite (next_record c r rest E). cbn. intros Hp.
    apply Hs in Hp. congruence.
Qed.

(** *** The loop of [__getitem__] *)

Lemma fill_unbounded_stop (bound : nat) (c : Collection) :
  fill bound None c = (Err TypeError, c).
Proof.
  destruct bound; reflexivity.
Qed.

Lemma fill_idle (bound : nat) (s : Z) (c : Collection) :
  (s <= Z.of_nat (__len__ c))%Z -> fill bound (Some s) c = (Ok tt, c).
Proof.
  intros Hs.
  assert (E : loop_cond (Some s) c = Ok false).
  { unfold loop_cond, int_lt.
    destruct (Z.ltb_spec (Z.of_nat (__len__ c)) s); [lia | reflexivity]. }
  destruct bound; cbn [fill]; rewrite E; reflexivity.
Qed.

(** With a bound above the number of records the producer still holds, the
    loop ends the way the [while] does: on its condition or on the [break]. *)
Lemma fill_within_bound (bound : nat) (s : Z) (c : Collection) :
  length (remaining (_rows c)) < bound ->
  exists c',
    fill bound (Some s) c = (Ok tt, c') /\
    extends c c' /\
    (settled c -> settled c') /\
    ((s <= Z.of_nat (__len__ c'))%Z \/ remaining (_rows c') = []).
Proof.
  revert c. induction bound as [| bound IH]; intros c Hb; [lia |].
  destruct (Z.ltb_spec (Z.of_nat (__len__ c)) s) as [Hlt | Hge].
  - assert (E : loop_cond (Some s) c = Ok true).
    { unfold loop_cond, int_lt.
      destruct (Z.ltb_spec (Z.of_nat (__len__ c)) s); [reflexivity | lia]. }
    cbn [fill]. rewrite E.
    destruct (remaining (_rows c)) as [| r rest] eqn:Er.
    + rewrite (next_exhausted c Er). exists (stopped c).
      split; [reflexivity |]. split; [apply extends_stopped, Er |].
      split; [intros _ _; reflexivity | right; reflexivity].
    + pose proof (next_extends c) as Hx. pose proof (next_settled c) as Hs.
      rewrite (next_record c r rest Er) in *. cbn [snd] in Hx, Hs.
      match goal with |- context [fill bound (Some s) ?d] => set (c1 := d) in * end.
      destruct (IH c1) as (c' & Hf & Hx' & Hs' & Hend).
      { cbn. cbn in Hb. lia. }
      exists c'. split; [exact Hf |].
      split; [eapply extends_trans; eassumption |].
      split; [intros H; apply Hs', Hs, H | exact Hend].
  - exists c. split; [apply fill_idle; lia |].
    split; [apply extends_refl |]. split; [tauto | left; lia].
Qed.

Lemma fetch_bounded (start : option Z) (s : Z) (c : Collection) :
  exists c',
    fetch start (Some s) c = (Ok (list_slice (_all_rows c') start (Some s)), c') /\
    extends c c' /\
    (settled c -> settled c') /\
    ((s <= Z.of_nat (__len__ c'))%Z \/ remaining (_rows c') = []).
Proof.
  destruct (fill_within_bound (S (length (remaining (_rows c)))) s c) as (c' & Hf & H);
    [lia |].
  exists c'. split; [| exact H]. unfold fetch. rewrite Hf. reflexivity.
Qed.

Lemma fetch_cached (start : option Z) (s : Z) (c : Collection) :
  (s <= Z.of_nat (__len__ c))%Z ->
  fetch start (Some s) c = (Ok (list_slice (_all_rows c) start (Some s)), c).
Proof.
  intros Hs. unfold fetch. rewrite (fill_idle _ s c Hs). reflexivity.
Qed.

(** The slice [l[n:n+1]] for a natural number [n]. *)
Lemma list_slice_one {A : Type} (l : list A) (n : nat) :
  list_slice l (Some (Z.of_nat n)) (Some (Z.of_nat n + 1)%Z) =
  match nth_error l n with Some a => [a] | None => [] end.
Proof.
  unfold list_slice, slice_bounds, clamp.
  destruct (Z.ltb_spec (Z.of_nat n) 0) as [Hn | _]; [lia |].
  destruct (Z.ltb_spec (Z.of_nat n + 1) 0) as [Hn | _]; [lia |].
  destruct (nth_error l n) as [a |] eqn:E.
  - assert (Hlt : n < length l) by (apply nth_error_Some; congruence).
    replace (Z.min (Z.of_nat n + 1) (Z.of_nat (length l))) with (Z.of_nat n + 1)%Z by lia.
    replace (Z.min (Z.of_nat n) (Z.of_nat (length l))) with (Z.of_nat n) by lia.
    replace (Z.to_nat (Z.of_nat n + 1 - Z.of_nat n)) with 1 by lia.
    rewrite Nat2Z.id.
    destruct (nth_error_split l n E) as (l1 & l2 & -> & <-).
    rewrite skipn_app, skipn_all, Nat.sub_diag. reflexivity.
  - apply nth_error_None in E.
    replace (Z.min (Z.of_nat n + 1) (Z.of_nat (length l))) with (Z.of_nat (length l)) by lia.
    replace (Z.min (Z.of_nat n) (Z.of_nat (length l))) with (Z.of_nat (length l)) by lia.
    rewrite Z.sub_diag. reflexivity.
Qed.

Lemma lookup_head {A : Type} (o : option A) :
  list_getitem (match o with Some a => [a] | None => [] end) 0 =
  match o with Some a => Ok a | None => Err IndexError end.
Proof.
  rewrite list_getitem_head. destruct o; reflexivity.
Qed.

(** [self[n]] for a natural number [n] is the [n]-th record of the
    collection, cached or not, and [IndexError] when there are not that
    many. *)
Lemma getitem_int_nat (n : nat) (c : Collection) :
  exists c',
    getitem_int (Z.of_nat n) c =
      (match nth_error (all_records c) n with
       | Some r => Ok r
       | None => Err IndexError
       end, c') /\
    extends c c' /\
    (settled c -> settled c').
Proof.
  destruct (fetch_bounded (Some (Z.of_nat n)) (Z.of_nat n + 1)%Z c)
    as (c' & Hf & Hx & Hs & Hend).
  exists c'. split; [| split; assumption].
  unfold getitem_int. rewrite Hf, list_slice_one, lookup_head.
  f_equal. rewrite <- (extends_all_records c c' Hx). unfold all_records.
  destruct Hend as [Hlen | Hrem].
  - unfold __len__ in Hlen. rewrite nth_error_app1 by lia. reflexivity.
  - rewrite Hrem, app_nil_r. reflexivity.
Qed.

Lemma getitem_int_cached (n : nat) (c : Collection) :
  n < __len__ c ->
  exists r, nth_error (_all_rows c) n = Some r /\
            getitem_int (Z.of_nat n) c = (Ok r, c).
Proof.
  intros Hn. unfold getitem_int.
  rewrite fetch_cached by lia. rewrite list_slice_one, lookup_head.
  destruct (nth_error (_all_rows c) n) as [r |] eqn:E.
  - exists r. split; reflexivity.
  - apply nth_error_None in E. unfold __len__ in Hn. lia.
Qed.

(** *** Generators *)

Lemma iter_next_extends (it : iterator) (c : Collection) :
  extends c (snd (iter_next it c)) /\
  (settled c -> settled (snd (iter_next it c))).
Proof.
  destruct it as [i |]; cbn [iter_next]; [| split; [apply extends_refl | tauto]].
  destruct (i <? __len__ c)%nat.
  - destruct (getitem_int_nat i c) as (c' & -> & Hx & Hs).
    destruct (nth_error (all_records c) i); cbn [snd]; split; assumption.
  - pose proof (next_extends c) as Hx. pose proof (next_settled c) as Hs.
    destruct (next c) as [[r | e] c']; cbn [snd] in *; [split; assumption |].
    destruct e; cbn [snd]; split; assumption.
Qed.

(** One call of [next] on a generator whose position is within the cache:
    it yields the record at its position, from the cache or from the
    producer, and moves on; past the last record it returns. *)
Lemma iter_next_running (i : nat) (c : Collection) :
  i <= __len__ c ->
  exists c',
    iter_next (Running i) c =
      (match nth_error (all_records c) i with
       | Some r => (Ok r, Running (S i))
       | None => (Err (StopIteration ""), Finished)
       end, c') /\
    extends c c' /\
    (nth_error (all_records c) i <> None -> S i <= __len__ c').
Proof.
  intros Hi. cbn [iter_next].
  destruct (Nat.ltb_spec i (__len__ c)) as [Hlt | Hge].
  - destruct (getitem_int_cached i c Hlt) as (r & Hr & ->).
    exists c. unfold all_records. rewrite nth_error_app1 by exact Hlt. rewrite Hr.
    split; [reflexivity |]. split; [apply extends_refl | intros _; exact Hlt].
  - assert (Hlen : i = length (_all_rows c)) by (unfold __len__ in *; lia).
    unfold all_records. rewrite nth_error_app2 by lia.
    rewrite Hlen, Nat.sub_diag.
    destruct (remaining (_rows c)) as [| r rest] eqn:Er.
    + rewrite (next_exhausted c Er). exists (stopped c).
      split; [reflexivity |]. split; [apply extends_stopped, Er |].
      intros H. contradiction H. reflexivity.
    + pose proof (next_extends c) as Hx.
      rewrite (next_record c r rest Er) in *. cbn [snd nth_error] in *.
      eexists. split; [reflexivity |]. split; [exact Hx |].
      intros _. unfold __len__. cbn. rewrite length_app. cbn. lia.
Qed.

Lemma skipn_nth_error {A : Type} (l : list A) (i : nat) :
  skipn i l = match nth_error l i with
              | Some a => a :: skipn (S i) l
              | None => []
              end.
Proof.
  revert i. induction l as [| a l IH]; intros [| i]; try reflexivity.
  cbn [nth_error]. rewrite <- IH. reflexivity.
Qed.

(** A generator run to its end yields the records from its position on;
    the bound is not what stops it. *)
Lemma collect_all (bound i : nat) (acc : list Record.Record) (c : Collection) :
  i <= __len__ c ->
  length (all_records c) - i < bound ->
  exists c',
    collect bound (Running i) acc c = (Ok (acc ++ skipn i (all_records c)), c') /\
    extends c c' /\
    (settled c -> settled c').
Proof.
  revert i acc c. induction bound as [| bound IH]; intros i acc c Hi Hb; [lia |].
  cbn [collect].
  pose proof (iter_next_extends (Running i) c) as [_ Hs].
  destruct (iter_next_running i c Hi) as (c1 & E & Hx & Hlen).
  rewrite E in Hs |- *. cbn [snd] in Hs.
  rewrite (skipn_nth_error (all_records c) i).
  destruct (nth_error (all_records c) i) as [r |] eqn:En.
  - assert (Hlt : i < length (all_records c)) by (apply nth_error_Some; congruence).
    destruct (IH (S i) (acc ++ [r]) c1) as (c' & Hc & Hx' & Hs').
    { apply Hlen. discriminate. }
    { rewrite (extends_all_records c c1 Hx). lia. }
    exists c'. rewrite Hc, (extends_all_records c c1 Hx), <- app_assoc.
    split; [reflexivity |].
    split; [eapply extends_trans; eassumption | intros H; apply Hs', Hs, H].
  - exists c1. rewrite app_nil_r. split; [reflexivity |]. split; assumption.
Qed.

Lemma list_self_all (c : Collection) :
  exists c',
    list_self c = (Ok (all_records c), c') /\
    extends c c' /\
    (settled c -> settled c').
Proof.
  unfold list_self, __iter__.
  destruct (collect_all (S (__len__ c + length (remaining (_rows c)))) 0 [] c)
    as (c' & E & H).
  - lia.
  - unfold all_records, __len__. rewrite length_app. lia.
  - exists c'. split; [exact E | exact H].
Qed.

(** *** The accessors *)

Lemma first_spec (default : value) (as_dict ordered : bool) (c : Collection) :
  exists c',
    first default as_dict ordered c =
      (match all_records c with
       | r :: _ => Ok (as_answer as_dict ordered r)
       | [] => if _is_exception default then Err (Raised default)
               else Ok (AValue default)
       end, c') /\
    extends c c' /\
    (settled c -> settled c').
Proof.
  destruct (getitem_int_nat 0 c) as (c' & E & H).
  exists c'. split; [| exact H].
  unfold first. change 0%Z with (Z.of_nat 0). rewrite E.
  destruct (all_records c) as [| r rest]; cbn [nth_error]; [| reflexivity].
  destruct (_is_exception default); reflexivity.
Qed.

Lemma one_spec (default : value) (as_dict ordered : bool) (c : Collection) :
  exists c',
    one default as_dict ordered c =
      (match all_records c with
       | _ :: _ :: _ => Err (ValueError more_than_one_row)
       | [r] => Ok (as_answer as_dict ordered r)
       | [] => if _is_exception default then Err (Raised default)
               else Ok (AValue default)
       end, c') /\
    extends c c' /\
    (settled c -> settled c').
Proof.
  destruct (getitem_int_nat 1 c) as (c1 & E & Hx & Hs).
  unfold one. change 1%Z with (Z.of_nat 1). rewrite E.
  destruct (all_records c) as [| r [| r' rest]] eqn:Ea; cbn [nth_error].
  - destruct (first_spec default as_dict ordered c1) as (c' & E' & Hx' & Hs').
    rewrite (extends_all_records c c1 Hx), Ea in E'.
    exists c'. split; [exact E' |].
    split; [eapply extends_trans; eassumption | intros H; apply Hs', Hs, H].
  - destruct (first_spec default as_dict ordered c1) as (c' & E' & Hx' & Hs').
    rewrite (extends_all_records c c1 Hx), Ea in E'.
    exists c'. split; [exact E' |].
    split; [eapply extends_trans; eassumption | intros H; apply Hs', Hs, H].
  - exists c1. split; [reflexivity | split; assumption].
Qed.

(** [one()] without arguments gives a record or [None], so the last case in
    the model of [scalar] is never taken: [scalar] is the first column of
    the only record, or [default], or the error of [one]. *)
Lemma scalar_spec (default : value) (c : Collection) :
  exists c',
    scalar default c =
      (match all_records c with
       | _ :: _ :: _ => Err (ValueError more_than_one_row)
       | [r] => Record.__getitem__ r (Record.KInt 0)
       | [] => Ok default
       end, c') /\
    extends c c' /\
    (settled c -> settled c').
Proof.
  destruct (one_spec VNone false false c) as (c' & E & H).
  exists c'. split; [| exact H].
  unfold scalar. rewrite E.
  destruct (all_records c) as [| r [| r' rest]]; reflexivity.
Qed.

Lemma all_spec (as_dict ordered : bool) (c : Collection) :
  exists c',
    all as_dict ordered c =
      (Ok (map (as_answer as_dict ordered) (all_records c)), c') /\
    extends c c' /\
    (settled c -> settled c').
Proof.
  destruct (list_self_all c) as (c' & E & H).
  exists c'. split; [| exact H]. unfold all. rewrite E. reflexivity.
Qed.

Lemma getitem_extends (k : key) (c : Collection) :
  extends c (snd (__getitem__ k c)) /\
  (settled c -> settled (snd (__getitem__ k c))).
Proof.
  assert (Hf : forall start stop,
             extends c (snd (fetch start stop c)) /\
             (settled c -> settled (snd (fetch start stop c)))).
  { intros start [s |].
    - destruct (fetch_bounded start s c) as (c' & -> & Hx & Hs & _).
      split; assumption.
    - unfold fetch. rewrite fill_unbounded_stop.
      split; [apply extends_refl | tauto]. }
  destruct k as [i | start stop]; cbn [__getitem__].
  - unfold getitem_int.
    specialize (Hf (Some i) (Some (i + 1)%Z)).
    destruct (fetch (Some i) (Some (i + 1)%Z) c) as [[rows | e] c']; cbn [snd] in *.
    + unfold lift. destruct (list_getitem rows 0); exact Hf.
    + exact Hf.
  - unfold getitem_slice.
    specialize (Hf start stop).
    destruct (fetch start stop c) as [[rows | e] c']; exact Hf.
Qed.

(** *** Programs *)

Lemma cursor_ok_mono (rows : list Record.Record) (c c' : Collection) (cu : cursor) :
  extends c c' -> cursor_ok rows c cu -> cursor_ok rows c' cu.
Proof.
  intros Hx (Hseen & Hst & Hlen). apply extends_len in Hx.
  repeat split; try assumption. lia.
Qed.

Lemma firstn_succ {A : Type} (l : list A) (n : nat) :
  firstn (S n) l = firstn n l ++ match nth_error l n with
                                 | Some a => [a]
                                 | None => []
                                 end.
Proof.
  revert n. induction l as [| a l IH]; intros [| n]; try reflexivity.
  cbn [firstn nth_error app]. rewrite <- IH. reflexivity.
Qed.

Lemma cursor_next_ok (rows : list Record.Record) (c : Collection) (cu : cursor) :
  all_records c = rows ->
  cursor_ok rows c cu ->
  cursor_ok rows (snd (cursor_next cu c)) (fst (cursor_next cu c)) /\
  extends c (snd (cursor_next cu c)) /\
  (settled c -> settled (snd (cursor_next cu c))).
Proof.
  intros Hall (Hseen & Hst & Hlen).
  pose proof (iter_next_extends (state cu) c) as [Hx Hs].
  unfold cursor_next. unfold cursor_after in Hst.
  destruct (Nat.leb_spec (calls cu) (length rows)) as [Hle | Hgt].
  - destruct (iter_next_running (calls cu) c) as (c' & E & _ & Hgrow); [lia |].
    rewrite Hst in *. rewrite E in *. cbn [snd] in Hx, Hs. rewrite Hall in *.
    destruct (nth_error rows (calls cu)) as [r |] eqn:En.
    + assert (Hlt : calls cu < length rows) by (apply nth_error_Some; congruence).
      cbn [fst snd]. split; [| split; assumption].
      unfold cursor_ok, cursor_after. cbn [seen calls state].
      rewrite firstn_succ, En, Hseen.
      destruct (Nat.leb_spec (S (calls cu)) (length rows)); [| lia].
      repeat split. assert (S (calls cu) <= __len__ c') by (apply Hgrow; discriminate).
      lia.
    + apply nth_error_None in En.
      cbn [fst snd]. split; [| split; assumption].
      unfold cursor_ok, cursor_after. cbn [seen calls state].
      rewrite firstn_succ, Hseen.
      assert (En' : nth_error rows (calls cu) = None) by (apply nth_error_None; lia).
      rewrite En', app_nil_r.
      destruct (Nat.leb_spec (S (calls cu)) (length rows)); [lia |].
      repeat split. apply extends_len in Hx. lia.
  - rewrite Hst in *. cbn [iter_next fst snd] in *.
    split; [| split; assumption].
    unfold cursor_ok, cursor_after. cbn [seen calls state].
    rewrite Hseen, !firstn_all2 by lia.
    destruct (Nat.leb_spec (S (calls cu)) (length rows)); [lia |].
    repeat split. lia.
Qed.

Lemma cursors_next_ok (rows : list Record.Record) (k : nat) (cus : list cursor)
      (c : Collection) :
  all_records c = rows ->
  Forall (cursor_ok rows c) cus ->
  Forall (cursor_ok rows (snd (cursors_next k cus c))) (fst (cursors_next k cus c)) /\
  extends c (snd (cursors_next k cus c)) /\
  (settled c -> settled (snd (cursors_next k cus c))).
Proof.
  intros Hall. revert k. induction cus as [| cu rest IH]; intros k Hok.
  - destruct k; cbn; (split; [constructor |]); (split; [apply extends_refl | tauto]).
  - apply Forall_cons_iff in Hok. destruct Hok as [Hcu Hrest].
    destruct k as [| k]; cbn [cursors_next].
    + destruct (cursor_next_ok rows c cu Hall Hcu) as (Hcu' & Hx & Hs).
      destruct (cursor_next cu c) as [cu' c']. cbn [fst snd] in *.
      split; [| split; assumption].
      constructor; [exact Hcu' |].
      eapply Forall_impl; [| exact Hrest]. intros a. apply cursor_ok_mono, Hx.
    + destruct (IH k Hrest) as (Hrest' & Hx & Hs).
      destruct (cursors_next k rest c) as [rest' c']. cbn [fst snd] in *.
      split; [| split; assumption].
      constructor; [eapply cursor_ok_mono; eassumption | exact Hrest'].
Qed.

(** A call that is not [next] on a generator only pulls. *)
Lemma method_extends (o : call) (s : program_state) :
  (forall k, o <> CallNextOf k) ->
  cursors (exec o s) = match o with
                       | CallIter => cursors s ++ [mkCursor (Running 0) 0 []]
                       | _ => cursors s
                       end /\
  extends (coll s) (coll (exec o s)) /\
  (settled (coll s) -> settled (coll (exec o s))).
Proof.
  intros Hk. destruct o as [| k | | k | d a o | d a o | d | a o |]; cbn [exec coll cursors].
  - split; [reflexivity |]. split; [apply extends_refl | tauto].
  - contradiction (Hk k). reflexivity.
  - split; [reflexivity |]. split; [apply next_extends | apply next_settled].
  - split; [reflexivity |]. apply getitem_extends.
  - split; [reflexivity |].
    destruct (first_spec d a o (coll s)) as (c' & -> & H). exact H.
  - split; [reflexivity |].
    destruct (one_spec d a o (coll s)) as (c' & -> & H). exact H.
  - split; [reflexivity |].
    destruct (scalar_spec d (coll s)) as (c' & -> & H). exact H.
  - split; [reflexivity |].
    destruct (all_spec a o (coll s)) as (c' & -> & H). exact H.
  - destruct s. split; [reflexivity |]. split; [apply extends_refl | tauto].
Qed.

Lemma exec_invariant (rows : list Record.Record) (o : call) (s : program_state) :
  all_records (coll s) = rows ->
  Forall (cursor_ok rows (coll s)) (cursors s) ->
  Forall (cursor_ok rows (coll (exec o s))) (cursors (exec o s)) /\
  extends (coll s) (coll (exec o s)) /\
  (settled (coll s) -> settled (coll (exec o s))).
Proof.
  intros Hall Hok.
  assert (Hk : (exists k, o = CallNextOf k) \/ (forall k, o <> CallNextOf k)).
  { destruct o; try (right; discriminate). left. eexists. reflexivity. }
  destruct Hk as [[k ->] | Hk].
  - cbn [exec].
    destruct (cursors_next_ok rows k (cursors s) (coll s) Hall Hok) as (Hok' & H).
    destruct (cursors_next k (cursors s) (coll s)) as [cus c']. exact (conj Hok' H).
  - destruct (method_extends o s Hk) as (Hcs & Hx & Hs).
    split; [| split; assumption]. rewrite Hcs.
    assert (Hmono : Forall (cursor_ok rows (coll (exec o s))) (cursors s)).
    { eapply Forall_impl; [| exact Hok]. intros a. apply cursor_ok_mono, Hx. }
    destruct o; try exact Hmono.
    apply Forall_app. split; [exact Hmono |].
    constructor; [| constructor].
    unfold cursor_ok, cursor_after. cbn. repeat split. lia.
Qed.

Lemma run_invariant (rows : list Record.Record) (os : list call) (s : program_state) :
  all_records (coll s) = rows ->
  Forall (cursor_ok rows (coll s)) (cursors s) ->
  Forall (cursor_ok rows (coll (run os s))) (cursors (run os s)) /\
  extends (coll s) (coll (run os s)) /\
  (settled (coll s) -> settled (coll (run os s))).
Proof.
  revert s. induction os as [| o os IH]; intros s Hall Hok.
  - cbn. split; [exact Hok |]. split; [apply extends_refl | tauto].
  - cbn [run fold_left]. fold (run os (exec o s)).
    destruct (exec_invariant rows o s Hall Hok) as (Hok1 & Hx1 & Hs1).
    destruct (IH (exec o s)) as (Hok2 & Hx2 & Hs2).
    + rewrite (extends_all_records _ _ Hx1). exact Hall.
    + exact Hok1.
    + split; [exact Hok2 |].
      split; [eapply extends_trans; eassumption | intros H; apply Hs2, Hs1, H].
Qed.

Lemma run_from_start (c : Collection) (os : list call) :
  Forall (cursor_ok (all_records c) (coll (run os (start c))))
         (cursors (run os (start c))) /\
  extends c (coll (run os (start c))) /\
  (settled c -> settled (coll (run os (start c)))).
Proof.
  apply (run_invariant (all_records c) os (start c)); [reflexivity | constructor].
Qed.

(** The loop stops pulling as soon as the cache reaches [stop]. *)
Lemma fill_no_further (bound : nat) (s : Z) (c : Collection) :
  (Z.of_nat (__len__ (snd (fill bound (Some s) c)))
   <= Z.max (Z.of_nat (__len__ c)) s)%Z.
Proof.
  revert c. induction bound as [| bound IH]; intros c.
  - cbn [fill]. destruct (loop_cond (Some s) c) as [[|] | e]; cbn [snd];
      apply Z.le_max_l.
  - cbn [fill]. unfold loop_cond, int_lt.
    destruct (Z.ltb_spec (Z.of_nat (__len__ c)) s) as [Hlt | Hge]; cbn [snd];
      [| apply Z.le_max_l].
    destruct (remaining (_rows c)) as [| r rest] eqn:Er.
    + rewrite (next_exhausted c Er). cbn [snd]. apply Z.le_max_l.
    + rewrite (next_record c r rest Er).
      match goal with |- context [fill bound (Some s) ?d] => set (c1 := d) end.
      specialize (IH c1).
      assert (Hc1 : __len__ c1 = S (__len__ c)).
      { unfold __len__, c1. cbn. rewrite length_app. cbn. lia. }
      rewrite Hc1 in IH. revert IH Hlt.
      generalize (__len__ (snd (fill bound (Some s) c1))) (__len__ c).
      intros n m. lia.
Qed.

Lemma firstn_clip {A : Type} (l : list A) (n : nat) :
  firstn n l = firstn (Nat.min n (length l)) l.
Proof.
  destruct (Nat.le_ge_cases n (length l)) as [H | H].
  - rewrite Nat.min_l by exact H. reflexivity.
  - rewrite Nat.min_r by exact H. rewrite !firstn_all2 by lia. reflexivity.
Qed.

Lemma firstn_prefix {A : Type} (l1 l2 : list A) (n : nat) :
  n <= length l1 -> firstn n (l1 ++ l2) = firstn n l1.
Proof.
  intros H. rewrite firstn_app.
  replace (n - length l1) with 0 by lia. rewrite firstn_O, app_nil_r. reflexivity.
Qed.

(** *** The claims about Collection *)

(** C1.  A program holds a collection and any number of generators obtained
    from [iter], and calls [next] on them in any order, with any other
    method calls in between.  Every generator has then yielded the first
    records of the collection, in their original order, one per call of
    [next], and is finished exactly when it was called more often than there
    are records; by then it has yielded them all.  What it yielded is the
    cache entry at the same position, so any two generators yield the same
    record at every position they both reached. *)
Theorem iterations_agree (c : Collection) (os : list call) :
  let s := run os (start c) in
  let rows := all_records c in
  Forall (fun cu =>
            seen cu = firstn (calls cu) rows /\
            state cu = cursor_after rows (calls cu) /\
            seen cu = firstn (length (seen cu)) (_all_rows (coll s)))
         (cursors s) /\
  (forall cu, In cu (cursors s) -> length rows < calls cu ->
              seen cu = rows /\ state cu = Finished) /\
  (forall cu1 cu2 j r1 r2,
      In cu1 (cursors s) -> In cu2 (cursors s) ->
      nth_error (seen cu1) j = Some r1 -> nth_error (seen cu2) j = Some r2 ->
      r1 = r2).
Proof.
  intros s rows.
  destruct (run_from_start c os) as (Hok & Hx & _).
  fold s rows in Hok, Hx.
  assert (Hall : Forall (fun cu =>
                           seen cu = firstn (calls cu) rows /\
                           state cu = cursor_after rows (calls cu) /\
                           seen cu = firstn (length (seen cu)) (_all_rows (coll s)))
                        (cursors s)).
  { eapply Forall_impl; [| exact Hok].
    intros cu (Hseen & Hst & Hlen). repeat split; try assumption.
    pose proof (extends_all_records _ _ Hx) as Ha. fold rows in Ha.
    unfold all_records in Ha. unfold __len__ in Hlen.
    assert (Hm : length (seen cu) = Nat.min (calls cu) (length rows))
      by (rewrite Hseen; apply length_firstn).
    rewrite Hm, Hseen, (firstn_clip rows).
    pose proof (firstn_prefix (_all_rows (coll s)) (remaining (_rows (coll s))) _ Hlen)
      as Hp.
    rewrite Ha in Hp. exact Hp. }
  split; [exact Hall |]. rewrite Forall_forall in Hall. split.
  - intros cu Hin Hgt. destruct (Hall cu Hin) as (Hseen & Hst & _).
    rewrite Hseen, Hst. unfold cursor_after.
    destruct (Nat.leb_spec (calls cu) (length rows)); [lia |].
    split; [apply firstn_all2; lia | reflexivity].
  - intros cu1 cu2 j r1 r2 H1 H2 E1 E2.
    destruct (Hall cu1 H1) as (_ & _ & Hc1). destruct (Hall cu2 H2) as (_ & _ & Hc2).
    assert (Hj : forall cu r, seen cu = firstn (length (seen cu)) (_all_rows (coll s)) ->
                              nth_error (seen cu) j = Some r ->
                              nth_error (_all_rows (coll s)) j = Some r).
    { intros cu r Hc E.
      assert (j < length (seen cu)) by (apply nth_error_Some; congruence).
      rewrite Hc in E. rewrite nth_error_firstn in E.
      destruct (Nat.ltb_spec j (length (seen cu))); [exact E | lia]. }
    pose proof (Hj cu1 r1 Hc1 E1). pose proof (Hj cu2 r2 Hc2 E2). congruence.
Qed.

(** C2, as stated, fails: two generators over a collection of one record,
    both run to their end, make three pulls, one for the record and one
    [StopIteration] for each generator. *)
Lemma pulls_counterexample :
  let rows := [Samples.row 0] in
  let os := [CallIter; CallIter; CallNextOf 0; CallNextOf 1; CallNextOf 0; CallNextOf 1] in
  let s := run os (start (__init__ (iter_of rows))) in
  map seen (cursors s) = [rows; rows] /\
  map state (cursors s) = [Finished; Finished] /\
  pulls (_rows (coll s)) = 3 /\
  ~ pulls (_rows (coll s)) <= length rows + 1.
Proof.
  cbv zeta. repeat split; try reflexivity.
  vm_compute. intros H. repeat apply le_S_n in H. inversion H.
Qed.

(** C3.  After any calls the cache is the first [len(cache)] records of the
    collection, in their order, and the records of the collection are the
    ones it started with; whatever calls follow, the cache they leave is the
    earlier cache with records appended, so an entry that is there stays at
    its position unchanged. *)
Theorem cache_is_prefix (c : Collection) (os1 os2 : list call) :
  let c1 := coll (run os1 (start c)) in
  let c2 := coll (run (os1 ++ os2) (start c)) in
  _all_rows c1 = firstn (length (_all_rows c1)) (all_records c) /\
  all_records c1 = all_records c /\
  (exists appended, _all_rows c2 = _all_rows c1 ++ appended) /\
  firstn (length (_all_rows c1)) (_all_rows c2) = _all_rows c1.
Proof.
  intros c1 c2.
  destruct (run_from_start c os1) as (Hok & Hx & _). fold c1 in Hx.
  pose proof (extends_all_records _ _ Hx) as Ha.
  assert (Hx2 : extends c1 c2).
  { unfold c2, run. rewrite fold_left_app. fold (run os1 (start c)).
    fold (run os2 (run os1 (start c))).
    apply (run_invariant (all_records c) os2 (run os1 (start c))); assumption. }
  split; [| split; [exact Ha |]].
  - rewrite <- Ha. unfold all_records.
    rewrite firstn_app, Nat.sub_diag, firstn_all, firstn_O, app_nil_r. reflexivity.
  - destruct Hx2 as (taken & Ht & _). split; [exists taken; exact Ht |].
    rewrite Ht, firstn_app, Nat.sub_diag, firstn_all, firstn_O, app_nil_r. reflexivity.
Qed.

(** C4, as the code has it.  A slice [start:stop] with an integer [stop]
    runs the loop, which pulls until the cache has [stop] entries or the
    producer is exhausted and not beyond; the cache only grows by the pulled
    records.  The result is a new collection made by [Collection(iter(rows))]
    over the copy [rows] of [cache[start:stop]]: its producer holds these
    rows and has not been pulled, its cache is empty and its [pending] flag
    is [True]; iterated, it yields [rows].  The original collection, iterated
    afterwards, yields all of its records. *)
Theorem slice_bounded (c : Collection) (start : option Z) (stop : Z) :
  exists c',
    let rows := list_slice (_all_rows c') start (Some stop) in
    let sub := __init__ (iter_of rows) in
    __getitem__ (KSlice start (Some stop)) c = (Ok (ICollection sub), c') /\
    extends c c' /\
    ((stop <= Z.of_nat (__len__ c'))%Z \/ remaining (_rows c') = []) /\
    (Z.of_nat (__len__ c') <= Z.max (Z.of_nat (__len__ c)) stop)%Z /\
    remaining (_rows sub) = rows /\ pulls (_rows sub) = 0 /\
    _all_rows sub = [] /\ pending sub = true /\
    fst (list_self sub) = Ok rows /\
    fst (list_self c') = Ok (all_records c).
Proof.
  destruct (fetch_bounded start stop c) as (c' & Hf & Hx & _ & Hend).
  exists c'. cbv zeta. cbn [__getitem__]. unfold getitem_slice, lift. rewrite Hf.
  split; [reflexivity |]. split; [exact Hx |]. split; [exact Hend |].
  split.
  { pose proof (fill_no_further (S (length (remaining (_rows c)))) stop c) as Hn.
    unfold fetch in Hf.
    destruct (fill (S (length (remaining (_rows c)))) (Some stop) c) as [[u | e] c1];
      cbn [snd] in Hn; injection Hf as _ <-; exact Hn. }
  repeat split.
  - destruct (list_self_all (__init__ (iter_of (list_slice (_all_rows c') start (Some stop)))))
      as (c2 & -> & _).
    reflexivity.
  - destruct (list_self_all c') as (c2 & -> & _).
    cbn [fst]. rewrite (extends_all_records _ _ Hx). reflexivity.
Qed.

(** C4, as stated, fails: the collection that [rows[:2]] returns has
    [pending] set and a producer that still holds both rows. *)
Lemma slice_pending_counterexample :
  let c := __init__ (iter_of [Samples.row 0; Samples.row 1; Samples.row 2]) in
  exists sub c',
    __getitem__ (KSlice None (Some 2%Z)) c = (Ok (ICollection sub), c') /\
    pending sub = true /\
    remaining (_rows sub) = [Samples.row 0; Samples.row 1] /\
    _all_rows sub = [].
Proof.
  cbv zeta. eexists. eexists. split; [vm_compute; reflexivity |].
  repeat split.
Qed.

(** C5 on the code: a slice whose [stop] is [None] raises [TypeError] at the
    first test of the loop condition, [len(self) < None], before the clause
    [key.stop is None] is looked at; nothing is pulled and no collection is
    returned. *)
Theorem slice_unbounded_stop_fails (c : Collection) (start : option Z) :
  __getitem__ (KSlice start None) c = (Err TypeError, c).
Proof.
  cbn [__getitem__]. unfold getitem_slice, fetch.
  rewrite fill_unbounded_stop. reflexivity.
Qed.

(** C6.  On a collection of two or more records, [one] finds the second
    record with [self[1]] and raises [ValueError] ("more than one row"),
    whatever [default] the caller gave; the collection is left as [self[1]]
    left it, since nothing else runs: [first] and the index-0 lookup are only
    reached when [self[1]] raises [IndexError]. *)
Theorem one_multiple_rows (c : Collection) (default : value) (as_dict ordered : bool) :
  2 <= length (all_records c) ->
  exists r c',
    nth_error (all_records c) 1 = Some r /\
    getitem_int 1 c = (Ok r, c') /\
    one default as_dict ordered c = (Err (ValueError more_than_one_row), c').
Proof.
  intros Hlen.
  destruct (getitem_int_nat 1 c) as (c' & E & _).
  change (Z.of_nat 1) with 1%Z in E.
  destruct (nth_error (all_records c) 1) as [r |] eqn:En.
  - exists r, c'. split; [reflexivity |]. split; [exact E |].
    unfold one. rewrite E. reflexivity.
  - apply nth_error_None in En. lia.
Qed.

Lemma one_multiple_rows_witness :
  let c := __init__ (iter_of [Samples.row 0; Samples.row 1]) in
  2 <= length (all_records c) /\
  exists r c',
    nth_error (all_records c) 1 = Some r /\
    getitem_int 1 c = (Ok r, c') /\
    one (VExcClass "Exception") false false c = (Err (ValueError more_than_one_row), c').
Proof.
  cbv zeta. split; [cbn; lia |].
  apply (one_multiple_rows
           (__init__ (iter_of [Samples.row 0; Samples.row 1]))
           (VExcClass "Exception") false false).
  cbn. lia.
Defined.

(** C7, as the code has it.  On a collection without records, [first] and
    [one] return [default], or raise it when it is an exception instance or
    class, and [scalar] returns [default] whatever it is: it calls [one()]
    with no argument and never raises its own [default].  On a collection
    with at least one record [first] returns the record at index 0, as a
    dictionary when [as_dict] is set. *)
Theorem accessors_on_empty (c : Collection) (default : value) (as_dict ordered : bool) :
  (all_records c = [] ->
   fst (first default as_dict ordered c)
   = (if _is_exception default then Err (Raised default) else Ok (AValue default)) /\
   fst (one default as_dict ordered c)
   = (if _is_exception default then Err (Raised default) else Ok (AValue default)) /\
   fst (scalar default c) = Ok default) /\
  (forall r rest,
      all_records c = r :: rest ->
      fst (getitem_int 0 c) = Ok r /\
      fst (first default false ordered c) = Ok (ARecord r) /\
      fst (first default true ordered c) = Ok (ADict ordered (Record.dict r))).
Proof.
  split.
  - intros He.
    destruct (first_spec default as_dict ordered c) as (c1 & -> & _).
    destruct (one_spec default as_dict ordered c) as (c2 & -> & _).
    destruct (scalar_spec default c) as (c3 & -> & _).
    rewrite He. repeat split.
  - intros r rest He.
    destruct (getitem_int_nat 0 c) as (c0 & E0 & _).
    change (Z.of_nat 0) with 0%Z in E0. rewrite E0.
    destruct (first_spec default false ordered c) as (c1 & -> & _).
    destruct (first_spec default true ordered c) as (c2 & -> & _).
    rewrite He. repeat split.
Qed.

Lemma accessors_on_empty_witness :
  let c := __init__ (iter_of []) in
  all_records c = [] /\
  fst (first (VStr "Spam & Eggs") false false c) = Ok (AValue (VStr "Spam & Eggs")) /\
  fst (one (VStr "Spam & Eggs") false false c) = Ok (AValue (VStr "Spam & Eggs")) /\
  fst (scalar (VStr "Spam & Eggs") c) = Ok (VStr "Spam & Eggs").
Proof.
  cbv zeta. split; [reflexivity |].
  apply (proj1 (accessors_on_empty (__init__ (iter_of [])) (VStr "Spam & Eggs") false false)).
  reflexivity.
Defined.

(** C7, as stated, fails for [scalar]: with the class [Exception] as
    [default], [first] on an empty collection raises it and [scalar] returns
    it as a value. *)
Lemma scalar_default_counterexample :
  let d := VExcClass "Exception" in
  let c := __init__ (iter_of []) in
  _is_exception d = true /\
  all_records c = [] /\
  fst (first d false false c) = Err (Raised d) /\
  fst (scalar d c) = Ok d.
Proof.
  cbv zeta. repeat split.
Qed.

(** C8, as the code has it.  A collection reached by any calls from a new
    one and whose [pending] flag is [False] has an exhausted producer, and
    [__next__] on it calls [next] on that producer once more, which raises
    [StopIteration] again; [__next__] raises [StopIteration] and leaves the
    cache and the flag as they were. *)
Theorem next_after_exhaustion (rows : list Record.Record) (os : list call) :
  let c := coll (run os (start (__init__ (iter_of rows)))) in
  pending c = false ->
  remaining (_rows c) = [] /\
  fst (__next__ c) = Err (StopIteration no_more_rows) /\
  _all_rows (snd (__next__ c)) = _all_rows c /\
  pending (snd (__next__ c)) = false /\
  remaining (_rows (snd (__next__ c))) = [] /\
  yielded (_rows (snd (__next__ c))) = yielded (_rows c) /\
  stops (_rows (snd (__next__ c))) = S (stops (_rows c)).
Proof.
  intros c Hp.
  destruct (run_from_start (__init__ (iter_of rows)) os) as (_ & _ & Hs).
  fold c in Hs.
  assert (Hrem : remaining (_rows c) = []).
  { apply Hs; [| exact Hp]. intros H. discriminate H. }
  split; [exact Hrem |].
  pose proof (next_exhausted c Hrem) as E. unfold next in E. rewrite E.
  repeat split.
Qed.

Lemma next_after_exhaustion_witness :
  let c := coll (run [CallAll false false] (start (__init__ (iter_of [Samples.row 0])))) in
  pending c = false /\
  remaining (_rows c) = [] /\
  fst (__next__ c) = Err (StopIteration no_more_rows) /\
  _all_rows (snd (__next__ c)) = _all_rows c /\
  pending (snd (__next__ c)) = false /\
  remaining (_rows (snd (__next__ c))) = [] /\
  yielded (_rows (snd (__next__ c))) = yielded (_rows c) /\
  stops (_rows (snd (__next__ c))) = S (stops (_rows c)).
Proof.
  cbv zeta. split; [reflexivity |].
  apply (next_after_exhaustion [Samples.row 0] [CallAll false false]).
  reflexivity.
Defined.

(** C8, as stated, fails: after a collection over no records has raised
    [StopIteration] once, its flag is [False], and the next [__next__] pulls
    from the producer again. *)
Lemma next_after_exhaustion_counterexample :
  let c := snd (__next__ (__init__ (iter_of []))) in
  pending c = false /\
  fst (__next__ c) = Err (StopIteration no_more_rows) /\
  pulls (_rows c) = 1 /\
  pulls (_rows (snd (__next__ c))) = 2.
Proof.
  cbv zeta. repeat split.
Qed.

(** *** Witnesses for the remaining claims *)

Lemma iterations_agree_witness :
  let c := __init__ (iter_of [Samples.row 0; Samples.row 1; Samples.row 2]) in
  let os := [CallIter; CallIter; CallNextOf 0; CallNextOf 1; CallNextOf 1; CallNextOf 0] in
  let s := run os (start c) in
  map seen (cursors s) = [[Samples.row 0; Samples.row 1]; [Samples.row 0; Samples.row 1]] /\
  pulls (_rows (coll s)) = 2 /\
  forall cu1 cu2 j r1 r2,
    In cu1 (cursors s) -> In cu2 (cursors s) ->
    nth_error (seen cu1) j = Some r1 -> nth_error (seen cu2) j = Some r2 ->
    r1 = r2.
Proof.
  cbv zeta. split; [reflexivity |]. split; [reflexivity |].
  apply (iterations_agree
           (__init__ (iter_of [Samples.row 0; Samples.row 1; Samples.row 2]))
           [CallIter; CallIter; CallNextOf 0; CallNextOf 1; CallNextOf 1; CallNextOf 0]).
Defined.

Lemma record_lookup_witness :
  Record.wf Samples.contact /\
  Record.__getitem__ Samples.contact (Record.KStr "email")
  = Err (KeyError (Record.multiple_msg "email")) /\
  (exists i v,
      nth_error (Record.keys Samples.contact) i = Some "id" /\
      (forall j, nth_error (Record.keys Samples.contact) j = Some "id" -> j = i) /\
      nth_error (Record.values Samples.contact) i = Some v /\
      Record.__getitem__ Samples.contact (Record.KStr "id") = Ok v) /\
  (exists v,
      nth_error (Record.values Samples.contact) (Z.to_nat 2) = Some v /\
      Record.__getitem__ Samples.contact (Record.KInt 2) = Ok v).
Proof.
  assert (Hwf : Record.wf Samples.contact) by reflexivity.
  split; [exact Hwf |].
  destruct (record_lookup Samples.contact Hwf) as [Hint Hname].
  split; [apply (proj1 (Hname "email")); cbn; lia |].
  split; [apply (proj2 (proj2 (Hname "id"))); reflexivity |].
  apply (proj1 (Hint 2%Z)). cbn. lia.
Defined.

Lemma record_get_duplicate_witness :
  (1 < count "email" (Record.keys Samples.contact))%nat /\
  Record.__getitem__ Samples.contact (Record.KStr "email")
  = Err (KeyError (Record.multiple_msg "email")) /\
  Record.get Samples.contact (Record.KStr "email") VNone = Ok VNone /\
  (forall s', count s' (Record.keys Samples.contact) = 0%nat ->
              Record.get Samples.contact (Record.KStr s') VNone = Ok VNone).
Proof.
  split; [cbn; lia |].
  apply (record_get_duplicate Samples.contact "email" VNone). cbn. lia.
Defined.

(** * Further properties of [Record] *)

(** ** Dictionaries *)

Lemma dict_get_set_same (k : string) (v : value) (d : list (string * value)) :
  dict_get k (dict_set k v d) = Some v.
Proof.
  induction d as [| [k' v'] d IH]; cbn.
  - rewrite String.eqb_refl. reflexivity.
  - destruct (String.eqb k' k) eqn:E; cbn; rewrite E; [reflexivity | exact IH].
Qed.

Lemma dict_get_set_other (k k0 : string) (v : value) (d : list (string * value)) :
  k0 <> k -> dict_get k (dict_set k0 v d) = dict_get k d.
Proof.
  intros Hne. induction d as [| [k' v'] d IH]; cbn.
  - destruct (String.eqb_spec k0 k); [contradiction | reflexivity].
  - destruct (String.eqb_spec k' k0) as [-> | Hk]; cbn.
    + destruct (String.eqb_spec k0 k); [contradiction | reflexivity].
    + rewrite IH. reflexivity.
Qed.

Lemma dict_get_fold_other (k : string) (items d : list (string * value)) :
  (forall kv, In kv items -> fst kv <> k) ->
  dict_get k (fold_left (fun d kv => dict_set (fst kv) (snd kv) d) items d)
  = dict_get k d.
Proof.
  revert d. induction items as [| kv items IH]; intros d Hno; [reflexivity |].
  cbn [fold_left]. rewrite IH.
  - apply dict_get_set_other. apply Hno. left. reflexivity.
  - intros kv' Hin. apply Hno. right. exact Hin.
Qed.

Lemma dict_keys_set (k : string) (v : value) (d : list (string * value)) :
  map fst (dict_set k v d)
  = if contains k (map fst d) then map fst d else map fst d ++ [k].
Proof.
  induction d as [| [k' v'] d IH]; cbn; [reflexivity |].
  destruct (String.eqb k' k); cbn; [reflexivity |]. rewrite IH.
  destruct (contains k (map fst d)); reflexivity.
Qed.

Lemma contains_In (x : string) (l : list string) :
  contains x l = true <-> In x l.
Proof.
  induction l as [| y l IH]; cbn; [split; [discriminate | tauto] |].
  destruct (String.eqb_spec y x) as [-> | Hne]; cbn.
  - split; [left; reflexivity | reflexivity].
  - rewrite IH. split; [right; assumption | intros [H | H]; [contradiction | exact H]].
Qed.

Lemma dict_keys_fold (items d : list (string * value)) :
  NoDup (map fst d) ->
  let d' := fold_left (fun d kv => dict_set (fst kv) (snd kv) d) items d in
  NoDup (map fst d') /\
  (forall k, In k (map fst d') <-> In k (map fst d) \/ In k (map fst items)).
Proof.
  revert d. induction items as [| [k v] items IH]; intros d Hd; cbn [fold_left].
  - split; [exact Hd | cbn; tauto].
  - assert (Hset : NoDup (map fst (dict_set k v d)) /\
                   (forall k', In k' (map fst (dict_set k v d))
                               <-> In k' (map fst d) \/ k = k')).
    { cbn [fst snd]. rewrite dict_keys_set.
      destruct (contains k (map fst d)) eqn:E.
      - apply contains_In in E. split; [exact Hd |].
        intros k'. split; [tauto | intros [H | <-]; assumption].
      - assert (Hn : ~ In k (map fst d)).
        { intros H. apply contains_In in H. congruence. }
        split.
        + apply NoDup_app; [exact Hd | repeat constructor; intros [] |].
          intros a Ha [<- | []]. exact (Hn Ha).
        + intros k'. rewrite in_app_iff. cbn. tauto. }
    destruct Hset as [Hnd Hin]. cbn [fst snd].
    destruct (IH (dict_set k v d) Hnd) as [Hnd' Hin'].
    split; [exact Hnd' |].
    intros k'. rewrite Hin', Hin. cbn. tauto.
Qed.

Lemma nth_error_zip {A B : Type} (l1 : list A) (l2 : list B) (i : nat) :
  nth_error (combine l1 l2) i =
  match nth_error l1 i, nth_error l2 i with
  | Some a, Some b => Some (a, b)
  | _, _ => None
  end.
Proof.
  revert l2 i. induction l1 as [| a l1 IH]; intros [| b l2] [| i]; cbn;
    try reflexivity.
  - destruct (nth_error l1 i); reflexivity.
  - apply IH.
Qed.

Lemma dict_last_entry (r : Record.Record) (k : string) :
  (forall i v,
      nth_error (Record.keys r) i = Some k ->
      nth_error (Record.values r) i = Some v ->
      (forall j, i < j -> j < length (Record.values r) ->
                 nth_error (Record.keys r) j <> Some k) ->
      dict_get k (Record.dict r) = Some v) /\
  (~ In k (Record.keys r) -> dict_get k (Record.dict r) = None).
Proof.
  unfold Record.dict, dict_of_items. split.
  - intros i v Hk Hv Hlast.
    assert (Hi : nth_error (combine (Record.keys r) (Record.values r)) i = Some (k, v))
      by (rewrite nth_error_zip, Hk, Hv; reflexivity).
    destruct (nth_error_split _ _ Hi) as (l1 & l2 & Hsplit & Hlen).
    rewrite Hsplit, fold_left_app. cbn [fold_left fst snd].
    rewrite dict_get_fold_other; [apply dict_get_set_same |].
    intros [k' v'] Hin Heq. cbn in Heq. subst k'.
    apply In_nth_error in Hin. destruct Hin as [n Hn].
    assert (Hj : nth_error (combine (Record.keys r) (Record.values r)) (S i + n)
                 = Some (k, v')).
    { rewrite Hsplit, nth_error_app2 by lia.
      replace (S i + n - length l1) with (S n) by lia. exact Hn. }
    rewrite nth_error_zip in Hj.
    destruct (nth_error (Record.keys r) (S i + n)) as [k0 |] eqn:Ek; [| discriminate].
    destruct (nth_error (Record.values r) (S i + n)) as [v0 |] eqn:Ev; [| discriminate].
    injection Hj as -> ->.
    apply (Hlast (S i + n)); [lia | | exact Ek].
    apply nth_error_Some. congruence.
  - intros Hno. rewrite dict_get_fold_other; [reflexivity |].
    intros [k' v'] Hin Heq. cbn in Heq. subst k'.
    apply in_combine_l in Hin. exact (Hno Hin).
Qed.

(** X1.  In the dictionary of a record a name maps to the value paired with
    its last occurrence among the keys, and a name that does not occur has
    no entry. *)
Theorem record_dict_last (r : Record.Record) (k : string) :
  (forall i v,
      nth_error (Record.keys r) i = Some k ->
      nth_error (Record.values r) i = Some v ->
      (forall j, i < j -> j < length (Record.values r) ->
                 nth_error (Record.keys r) j <> Some k) ->
      dict_get k (Record.dict r) = Some v) /\
  (~ In k (Record.keys r) -> dict_get k (Record.dict r) = None).
Proof.
  exact (dict_last_entry r k).
Qed.

Lemma record_dict_last_witness :
  nth_error (Record.keys Samples.contact) 2 = Some "email" /\
  nth_error (Record.values Samples.contact) 2 = Some (VStr "b") /\
  dict_get "email" (Record.dict Samples.contact) = Some (VStr "b").
Proof.
  split; [reflexivity |]. split; [reflexivity |].
  apply (proj1 (record_dict_last Samples.contact "email") 2 (VStr "b"));
    try reflexivity.
  intros j Hlt Hlen. cbn in Hlen. lia.
Defined.

(** X2.  Where lookup by name succeeds on a record with as many keys as
    values, the dictionary of the record has the same value under that
    name. *)
Theorem record_dict_agrees (r : Record.Record) (s : string) (v : value) :
  Record.wf r ->
  Record.__getitem__ r (Record.KStr s) = Ok v ->
  dict_get s (Record.dict r) = Some v.
Proof.
  intros Hwf Hget. cbn [Record.__getitem__] in Hget.
  destruct (contains s (Record.keys r)) eqn:Hin; [| discriminate].
  destruct (Nat.ltb_spec 1 (count s (Record.keys r))) as [Hlt | Hle]; [discriminate |].
  apply contains_count in Hin.
  destruct (index s (Record.keys r)) as [i |] eqn:Hi; [| discriminate].
  pose proof (index_position _ _ _ Hi) as Hk.
  assert (Hlen : (i < length (Record.values r))%nat).
  { unfold Record.wf in Hwf. unfold Record.values, Record.keys in *.
    rewrite <- Hwf. apply nth_error_Some. congruence. }
  destruct (list_getitem_nonneg (Record.values r) (Z.of_nat i)) as (v' & Hv & Hg);
    [lia |].
  rewrite Nat2Z.id in Hv. rewrite Hg in Hget. injection Hget as ->.
  apply (proj1 (dict_last_entry r s) i v Hk Hv).
  intros j Hj _ Hkj.
  assert (j = i) by (apply (index_unique s (Record.keys r) i j); [lia | exact Hi | exact Hkj]).
  lia.
Qed.

Lemma record_dict_agrees_witness :
  Record.wf Samples.contact /\
  Record.__getitem__ Samples.contact (Record.KStr "id") = Ok (VInt 1) /\
  dict_get "id" (Record.dict Samples.contact) = Some (VInt 1).
Proof.
  split; [reflexivity |]. split; [reflexivity |].
  apply (record_dict_agrees Samples.contact "id" (VInt 1)); reflexivity.
Defined.

Lemma map_fst_zip {A B : Type} (l1 : list A) (l2 : list B) :
  length l1 = length l2 -> map fst (combine l1 l2) = l1.
Proof.
  revert l2. induction l1 as [| a l1 IH]; intros [| b l2] H; cbn in *;
    try reflexivity; try discriminate.
  f_equal. apply IH. lia.
Qed.

(** X3.  The dictionary of a record with as many keys as values has every
    key of the record exactly once. *)
Theorem record_dict_keys (r : Record.Record) :
  Record.wf r ->
  NoDup (map fst (Record.dict r)) /\
  (forall k, In k (map fst (Record.dict r)) <-> In k (Record.keys r)).
Proof.
  intros Hwf. unfold Record.dict, dict_of_items.
  destruct (dict_keys_fold (combine (Record.keys r) (Record.values r)) [])
    as [Hnd Hin]; [constructor |].
  split; [exact Hnd |].
  intros k. rewrite Hin. cbn [map In].
  unfold Record.wf in Hwf. unfold Record.keys, Record.values.
  rewrite (map_fst_zip _ _ Hwf).
  tauto.
Qed.

Lemma record_dict_keys_witness :
  Record.wf Samples.contact /\
  NoDup (map fst (Record.dict Samples.contact)) /\
  (forall k, In k (map fst (Record.dict Samples.contact))
             <-> In k (Record.keys Samples.contact)).
Proof.
  split; [reflexivity |].
  apply (record_dict_keys Samples.contact). reflexivity.
Defined.

(** ** Lookup by name, by attribute and through [get] *)

Lemma getitem_name_cases (r : Record.Record) (s : string) :
  Record.wf r ->
  match count s (Record.keys r) with
  | 0 => Record.__getitem__ r (Record.KStr s) = Err (KeyError (Record.missing_msg s))
  | 1 => exists v, Record.__getitem__ r (Record.KStr s) = Ok v
  | _ => Record.__getitem__ r (Record.KStr s) = Err (KeyError (Record.multiple_msg s))
  end.
Proof.
  intros Hwf. cbn [Record.__getitem__].
  destruct (count s (Record.keys r)) as [| [| n]] eqn:Hc.
  - destruct (contains s (Record.keys r)) eqn:Hin; [| reflexivity].
    apply contains_count in Hin. lia.
  - assert (Hin : contains s (Record.keys r) = true) by (apply contains_count; lia).
    rewrite Hin. cbn [Nat.ltb Nat.leb].
    destruct (index_present s (Record.keys r)) as [i Hi]; [lia |].
    rewrite Hi. pose proof (index_position _ _ _ Hi) as Hk.
    assert (Hlen : (i < length (Record.values r))%nat).
    { unfold Record.wf in Hwf. unfold Record.values, Record.keys in *.
      rewrite <- Hwf. apply nth_error_Some. congruence. }
    destruct (list_getitem_nonneg (Record.values r) (Z.of_nat i)) as (v & _ & Hg);
      [lia |].
    exists v. exact Hg.
  - assert (Hin : contains s (Record.keys r) = true) by (apply contains_count; lia).
    rewrite Hin. reflexivity.
Qed.

(** X4.  Attribute access on a record with as many keys as values returns
    what lookup by that name returns when the name occurs exactly once among
    the keys, and raises [AttributeError], never [KeyError], when the name
    is repeated or absent. *)
Theorem record_getattr (r : Record.Record) (s : string) :
  Record.wf r ->
  (count s (Record.keys r) = 1%nat ->
   exists v, Record.__getitem__ r (Record.KStr s) = Ok v /\
             Record.__getattr__ r s = Record.Returns v) /\
  (count s (Record.keys r) <> 1%nat ->
   exists msg, Record.__getattr__ r s = Record.RaisesAttributeError (KeyError msg)) /\
  (forall e, Record.__getattr__ r s <> Record.Raises e).
Proof.
  intros Hwf. pose proof (getitem_name_cases r s Hwf) as H.
  unfold Record.__getattr__.
  destruct (count s (Record.keys r)) as [| [| n]].
  - rewrite H. split; [discriminate |]. split; [| discriminate].
    intros _. eexists. reflexivity.
  - destruct H as [v ->]. split; [| split; [congruence | discriminate]].
    intros _. exists v. split; reflexivity.
  - rewrite H. split; [discriminate |]. split; [| discriminate].
    intros _. eexists. reflexivity.
Qed.

Lemma record_getattr_witness :
  Record.wf Samples.contact /\
  (exists v, Record.__getitem__ Samples.contact (Record.KStr "id") = Ok v /\
             Record.__getattr__ Samples.contact "id" = Record.Returns v) /\
  (exists msg, Record.__getattr__ Samples.contact "email"
               = Record.RaisesAttributeError (KeyError msg)).
Proof.
  assert (Hwf : Record.wf Samples.contact) by reflexivity.
  split; [exact Hwf |]. split.
  - apply (proj1 (record_getattr Samples.contact "id" Hwf)). reflexivity.
  - apply (proj1 (proj2 (record_getattr Samples.contact "email" Hwf))). cbn. lia.
Defined.

(** X5.  [export] on a record never reaches an export of the record: it
    reads [self.data], so it raises [AttributeError] unless exactly one
    column is named [data], and then it calls [format] on the value of that
    column. *)
Theorem record_export (r : Record.Record) (format : string) :
  Record.wf r ->
  (count "data" (Record.keys r) <> 1%nat ->
   exists msg, Record.export r format = Record.RaisesAttributeError (KeyError msg)) /\
  (count "data" (Record.keys r) = 1%nat ->
   exists v, Record.__getitem__ r (Record.KStr "data") = Ok v /\
             Record.export r format = Record.CallsFormat v format).
Proof.
  intros Hwf. pose proof (getitem_name_cases r "data" Hwf) as H.
  unfold Record.export, Record.__getattr__.
  destruct (count "data" (Record.keys r)) as [| [| n]].
  - rewrite H. split; [| discriminate]. intros _. eexists. reflexivity.
  - destruct H as [v ->]. split; [congruence |].
    intros _. exists v. split; reflexivity.
  - rewrite H. split; [| discriminate]. intros _. eexists. reflexivity.
Qed.

Lemma record_export_witness :
  Record.wf Samples.contact /\
  count "data" (Record.keys Samples.contact) <> 1%nat /\
  exists msg, Record.export Samples.contact "csv"
              = Record.RaisesAttributeError (KeyError msg).
Proof.
  assert (Hwf : Record.wf Samples.contact) by reflexivity.
  assert (Hc : count "data" (Record.keys Samples.contact) <> 1%nat) by (cbn; lia).
  split; [exact Hwf |]. split; [exact Hc |].
  apply (proj1 (record_export Samples.contact "csv" Hwf)). exact Hc.
Defined.

(** X6.  [get] with a name never raises on a record with as many keys as
    values: it is the value when the name occurs exactly once and [default]
    otherwise.  With an integer outside [-len, len) it raises [IndexError]
    and [default] is not used. *)
Theorem record_get_cases (r : Record.Record) (default : value) :
  Record.wf r ->
  (forall s,
      (count s (Record.keys r) = 1%nat ->
       exists v, Record.__getitem__ r (Record.KStr s) = Ok v /\
                 Record.get r (Record.KStr s) default = Ok v) /\
      (count s (Record.keys r) <> 1%nat ->
       Record.get r (Record.KStr s) default = Ok default)) /\
  (forall i,
      (i < - Z.of_nat (length (Record.values r))
       \/ Z.of_nat (length (Record.values r)) <= i)%Z ->
      Record.get r (Record.KInt i) default = Err IndexError).
Proof.
  intros Hwf. split.
  - intros s. pose proof (getitem_name_cases r s Hwf) as H. unfold Record.get.
    destruct (count s (Record.keys r)) as [| [| n]].
    + rewrite H. split; [discriminate | reflexivity].
    + destruct H as [v ->]. split; [| congruence].
      intros _. exists v. split; reflexivity.
    + rewrite H. split; [discriminate | reflexivity].
  - intros i Hi. unfold Record.get. cbn [Record.__getitem__].
    rewrite (list_getitem_outside _ _ Hi). reflexivity.
Qed.

Lemma record_get_cases_witness :
  Record.wf Samples.contact /\
  Record.get Samples.contact (Record.KStr "name") (VStr "?") = Ok (VStr "?") /\
  Record.get Samples.contact (Record.KInt 3) (VStr "?") = Err IndexError.
Proof.
  assert (Hwf : Record.wf Samples.contact) by reflexivity.
  split; [exact Hwf |].
  destruct (record_get_cases Samples.contact (VStr "?") Hwf) as [Hname Hint].
  split.
  - apply (proj2 (Hname "name")). cbn. lia.
  - apply Hint. cbn. lia.
Defined.

(** * Further properties of [Collection] *)

(** ** Counting the calls of [__next__] *)

Lemma pulled_add (a b : nat) (c : Collection) :
  pulled (a + b) c = pulled b (pulled a c).
Proof.
  revert c. induction a as [| a IH]; intros c; [reflexivity |].
  cbn [Nat.add pulled]. apply IH.
Qed.

Lemma pulled_within (k : nat) (c : Collection) :
  k <= length (remaining (_rows c)) ->
  pulled k c =
  {| _rows := {| remaining := skipn k (remaining (_rows c));
                 yielded := yielded (_rows c) + k;
                 stops := stops (_rows c) |};
     _all_rows := _all_rows c ++ firstn k (remaining (_rows c));
     pending := pending c |}.
Proof.
  revert c. induction k as [| k IH]; intros c Hk.
  - destruct c as [[rem y st] cache p]. cbn.
    rewrite Nat.add_0_r, app_nil_r. reflexivity.
  - destruct (remaining (_rows c)) as [| r rest] eqn:Er; [cbn in Hk; lia |].
    pose proof (next_record c r rest Er) as E. unfold next in E.
    cbn [pulled]. rewrite E. cbn [snd]. rewrite IH by (cbn in *; lia).
    cbn. rewrite <- app_assoc, Nat.add_succ_r. reflexivity.
Qed.

Lemma pulled_beyond (k : nat) (c : Collection) :
  length (remaining (_rows c)) < k ->
  pulled k c =
  {| _rows := {| remaining := [];
                 yielded := yielded (_rows c) + length (remaining (_rows c));
                 stops := stops (_rows c) + (k - length (remaining (_rows c))) |};
     _all_rows := _all_rows c ++ remaining (_rows c);
     pending := false |}.
Proof.
  revert c. induction k as [| k IH]; intros c Hk; [lia |].
  cbn [pulled].
  destruct (remaining (_rows c)) as [| r rest] eqn:Er.
  - pose proof (next_exhausted c Er) as E. unfold next in E. rewrite E. cbn [snd].
    destruct k as [| k].
    + cbn. rewrite Nat.add_0_r, app_nil_r, Nat.add_1_r. reflexivity.
    + rewrite IH by (cbn; lia). cbn.
      rewrite !Nat.add_0_r, !app_nil_r. f_equal. f_equal. lia.
  - pose proof (next_record c r rest Er) as E. unfold next in E. rewrite E. cbn [snd].
    rewrite IH by (cbn in *; lia). cbn.
    rewrite <- app_assoc, Nat.add_succ_r. reflexivity.
Qed.

Lemma pulled_pulls (k : nat) (c : Collection) :
  pulls (_rows (pulled k c)) = pulls (_rows c) + k.
Proof.
  unfold pulls.
  destruct (Nat.le_gt_cases k (length (remaining (_rows c)))) as [H | H].
  - rewrite (pulled_within k c H). cbn. lia.
  - rewrite (pulled_beyond k c H). cbn. lia.
Qed.

Lemma pulled_pending (k : nat) (c : Collection) :
  pending c = false -> pending (pulled k c) = false.
Proof.
  intros Hp.
  destruct (Nat.le_gt_cases k (length (remaining (_rows c)))) as [H | H].
  - rewrite (pulled_within k c H). exact Hp.
  - rewrite (pulled_beyond k c H). reflexivity.
Qed.

(** The loop of [__getitem__] is that many calls of [__next__]: one for
    each entry the cache is short of [stop], and no more than one past the
    last record. *)
Lemma fill_pulled (bound : nat) (s : Z) (c : Collection) :
  length (remaining (_rows c)) < bound ->
  snd (fill bound (Some s) c)
  = pulled (Nat.min (Z.to_nat (s - Z.of_nat (__len__ c)))
                    (S (length (remaining (_rows c))))) c.
Proof.
  revert c. induction bound as [| bound IH]; intros c Hb; [lia |].
  cbn [fill]. unfold loop_cond, int_lt.
  destruct (Z.ltb_spec (Z.of_nat (__len__ c)) s) as [Hlt | Hge]; cbn [is_None].
  - destruct (remaining (_rows c)) as [| r rest] eqn:Er.
    + pose proof (next_exhausted c Er) as E. rewrite E. cbn [snd length].
      replace (Nat.min (Z.to_nat (s - Z.of_nat (__len__ c))) 1) with 1 by lia.
      cbn [pulled]. unfold next in E. rewrite E. reflexivity.
    + pose proof (next_record c r rest Er) as E. rewrite E.
      match goal with |- context [fill bound (Some s) ?d] => set (c1 := d) in * end.
      assert (Hc1 : __len__ c1 = S (__len__ c)).
      { unfold __len__, c1. cbn. rewrite length_app. cbn. lia. }
      rewrite IH by (cbn in *; lia). rewrite Hc1.
      change (remaining (_rows c1)) with rest. cbn [length].
      replace (Nat.min (Z.to_nat (s - Z.of_nat (__len__ c))) (S (S (length rest))))
        with (S (Nat.min (Z.to_nat (s - Z.of_nat (S (__len__ c)))) (S (length rest))))
        by lia.
      cbn [pulled]. unfold next in E. rewrite E. reflexivity.
  - cbn [snd].
    replace (Z.to_nat (s - Z.of_nat (__len__ c))) with 0 by lia. reflexivity.
Qed.

Lemma getitem_int_state (i : Z) (c : Collection) :
  snd (getitem_int i c)
  = pulled (Nat.min (Z.to_nat (i + 1 - Z.of_nat (__len__ c)))
                    (S (length (remaining (_rows c))))) c.
Proof.
  rewrite <- (fill_pulled (S (length (remaining (_rows c)))) (i + 1) c) by lia.
  unfold getitem_int, fetch.
  destruct (fill (S (length (remaining (_rows c)))) (Some (i + 1)%Z) c) as [[u | e] c'];
    reflexivity.
Qed.

(** X7.  [self[n]] for [n >= 0] is the [n]-th record the producer gives,
    whether it is cached yet or not, and [IndexError] when the producer has
    fewer than [n + 1] records. *)
Theorem index_result (n : nat) (c : Collection) :
  fst (getitem_int (Z.of_nat n) c)
  = match nth_error (all_records c) n with
    | Some r => Ok r
    | None => Err IndexError
    end /\
  fst (__getitem__ (KInt (Z.of_nat n)) c)
  = match nth_error (all_records c) n with
    | Some r => Ok (IRecord r)
    | None => Err IndexError
    end.
Proof.
  destruct (getitem_int_nat n c) as (c' & E & _).
  cbn [__getitem__]. rewrite E. cbn [fst lift].
  destruct (nth_error (all_records c) n); split; reflexivity.
Qed.

Lemma index_pulls_aux (n : nat) (c : Collection) :
  let k := Nat.min (S n - __len__ c) (S (length (remaining (_rows c)))) in
  snd (getitem_int (Z.of_nat n) c) = pulled k c /\
  pulls (_rows (snd (getitem_int (Z.of_nat n) c))) = pulls (_rows c) + k /\
  __len__ (snd (getitem_int (Z.of_nat n) c))
  = Nat.max (__len__ c) (Nat.min (S n) (length (all_records c))).
Proof.
  intros k. rewrite getitem_int_state.
  assert (Hk : Z.to_nat (Z.of_nat n + 1 - Z.of_nat (__len__ c)) = S n - __len__ c).
  { generalize (__len__ c). intros m. lia. }
  rewrite Hk. fold k. split; [reflexivity |]. split; [apply pulled_pulls |].
  unfold all_records, __len__ in *. rewrite length_app.
  destruct (Nat.le_gt_cases k (length (remaining (_rows c)))) as [H | H].
  - rewrite (pulled_within k c H). cbn [_all_rows].
    rewrite length_app, length_firstn. subst k. lia.
  - rewrite (pulled_beyond k c H). cbn [_all_rows].
    rewrite length_app. subst k. lia.
Qed.

(** X8.  [self[n]] for [n >= 0] calls the producer once for each entry the
    cache is short of [n + 1], and at most once more than there are records
    left: nothing when the record is cached, never past the record asked
    for, and one failed pull when the records run out first. *)
Theorem index_pulls (n : nat) (c : Collection) :
  let k := Nat.min (S n - __len__ c) (S (length (remaining (_rows c)))) in
  snd (getitem_int (Z.of_nat n) c) = pulled k c /\
  pulls (_rows (snd (getitem_int (Z.of_nat n) c))) = pulls (_rows c) + k /\
  __len__ (snd (getitem_int (Z.of_nat n) c))
  = Nat.max (__len__ c) (Nat.min (S n) (length (all_records c))).
Proof.
  exact (index_pulls_aux n c).
Qed.

(** ** Negative indices and slices *)

Lemma list_slice_negative {A : Type} (l : list A) (i : Z) :
  (i < 0)%Z ->
  list_getitem (list_slice l (Some i) (Some (i + 1)%Z)) 0
  = if (i =? -1)%Z then Err IndexError else list_getitem l i.
Proof.
  intros Hi. rewrite list_getitem_head.
  unfold list_slice, slice_bounds, clamp.
  destruct (Z.ltb_spec i 0) as [_ | H]; [| lia].
  destruct (Z.eqb_spec i (-1)) as [-> | Hne].
  - change (-1 + 1)%Z with 0%Z. change (0 <? 0)%Z with false. cbv iota.
    replace (Z.to_nat (Z.min 0 (Z.of_nat (length l))
                       - Z.max (-1 + Z.of_nat (length l)) 0)) with 0 by lia.
    reflexivity.
  - destruct (Z.ltb_spec (i + 1) 0) as [_ | H]; [| lia].
    destruct (Z.le_gt_cases 0 (i + Z.of_nat (length l))) as [Hin | Hout].
    + destruct (list_getitem_negative l i) as (a & Ha & ->); [lia |].
      replace (Z.max (i + Z.of_nat (length l)) 0) with (i + Z.of_nat (length l))%Z
        by lia.
      replace (Z.to_nat (Z.max (i + 1 + Z.of_nat (length l)) 0
                         - (i + Z.of_nat (length l)))) with 1 by lia.
      destruct (nth_error_split l _ Ha) as (l1 & l2 & -> & Hl1).
      rewrite <- Hl1 at 1.
      rewrite skipn_app, skipn_all, Nat.sub_diag. reflexivity.
    + rewrite (list_getitem_outside l i) by lia.
      replace (Z.to_nat (Z.max (i + 1 + Z.of_nat (length l)) 0
                         - Z.max (i + Z.of_nat (length l)) 0)) with 0 by lia.
      reflexivity.
Qed.

(** X9.  A negative index never pulls: [self[-1]] raises [IndexError]
    whatever the collection holds, and [self[i]] for [i < -1] is [cache[i]],
    counted from the end of the rows cached so far, or [IndexError] when the
    cache is shorter. *)
Theorem index_negative (i : Z) (c : Collection) :
  (i < 0)%Z ->
  getitem_int i c
  = (if (i =? -1)%Z then Err IndexError else list_getitem (_all_rows c) i, c).
Proof.
  intros Hi. unfold getitem_int.
  rewrite fetch_cached by lia.
  rewrite (list_slice_negative _ i Hi). reflexivity.
Qed.

Lemma index_negative_witness :
  let c := snd (all false false
                    (__init__ (iter_of [Samples.row 0; Samples.row 1; Samples.row 2]))) in
  (-1 < 0)%Z /\ (-2 < 0)%Z /\
  getitem_int (-1) c = (Err IndexError, c) /\
  getitem_int (-2) c = (Ok (Samples.row 1), c).
Proof.
  cbv zeta. split; [lia |]. split; [lia |]. split.
  - apply (index_negative (-1)). lia.
  - apply (index_negative (-2)). lia.
Defined.

Lemma list_slice_nat {A : Type} (l : list A) (a b : nat) :
  list_slice l (Some (Z.of_nat a)) (Some (Z.of_nat b)) = firstn (b - a) (skipn a l) /\
  list_slice l None (Some (Z.of_nat b)) = firstn b l.
Proof.
  unfold list_slice, slice_bounds, clamp.
  destruct (Z.ltb_spec (Z.of_nat a) 0) as [H | _]; [lia |].
  destruct (Z.ltb_spec (Z.of_nat b) 0) as [H | _]; [lia |].
  split.
  - destruct (Nat.le_gt_cases (length l) a) as [Hge | Hlt].
    + rewrite (@skipn_all2 _ a l) by lia.
      replace (Z.to_nat (Z.min (Z.of_nat a) (Z.of_nat (length l))))
        with (length l) by lia.
      rewrite skipn_all, !firstn_nil. reflexivity.
    + replace (Z.to_nat (Z.min (Z.of_nat a) (Z.of_nat (length l)))) with a by lia.
      destruct (Nat.le_gt_cases b (length l)) as [Hb | Hb].
      * f_equal. lia.
      * rewrite !firstn_all2; [reflexivity | |]; rewrite length_skipn; lia.
  - rewrite skipn_O.
    destruct (Nat.le_gt_cases b (length l)) as [Hb | Hb].
    + f_equal. lia.
    + rewrite !firstn_all2; [reflexivity | |]; lia.
Qed.

Lemma slice_of_prefix {A : Type} (l1 l2 : list A) (a b : nat) :
  b <= length l1 \/ l2 = [] ->
  firstn (b - a) (skipn a l1) = firstn (b - a) (skipn a (l1 ++ l2)).
Proof.
  intros [Hb | ->]; [| rewrite app_nil_r; reflexivity].
  rewrite skipn_app, firstn_app, length_skipn.
  replace (b - a - (length l1 - a)) with 0 by lia.
  rewrite firstn_O, app_nil_r. reflexivity.
Qed.

(** X10.  For bounds [a, b >= 0] the collection returned by [self[a:b]] is
    made over that slice of all the records, [records[a:b]], cached before
    or not, and [self[:b]] over [records[:b]]; iterating the new collection
    yields those rows. *)
Theorem slice_rows (a b : nat) (c : Collection) :
  fst (getitem_slice (Some (Z.of_nat a)) (Some (Z.of_nat b)) c)
  = Ok (__init__ (iter_of (firstn (b - a) (skipn a (all_records c))))) /\
  fst (getitem_slice None (Some (Z.of_nat b)) c)
  = Ok (__init__ (iter_of (firstn b (all_records c)))) /\
  (forall rows, fst (list_self (__init__ (iter_of rows))) = Ok rows).
Proof.
  split; [| split].
  - destruct (fetch_bounded (Some (Z.of_nat a)) (Z.of_nat b) c)
      as (c' & Hf & Hx & _ & Hend).
    unfold getitem_slice. rewrite Hf. cbn [fst].
    rewrite (proj1 (list_slice_nat _ a b)).
    rewrite <- (extends_all_records _ _ Hx). unfold all_records.
    rewrite <- slice_of_prefix; [reflexivity |].
    unfold __len__ in Hend. destruct Hend; [left; lia | right; assumption].
  - destruct (fetch_bounded None (Z.of_nat b) c) as (c' & Hf & Hx & _ & Hend).
    unfold getitem_slice. rewrite Hf. cbn [fst].
    rewrite (proj2 (list_slice_nat _ 0 b)).
    rewrite <- (extends_all_records _ _ Hx). unfold all_records.
    pose proof (slice_of_prefix (_all_rows c') (remaining (_rows c')) 0 b) as H.
    rewrite Nat.sub_0_r, !skipn_O in H. rewrite H; [reflexivity |].
    unfold __len__ in Hend. destruct Hend; [left; lia | right; assumption].
  - intros rows.
    destruct (list_self_all (__init__ (iter_of rows))) as (c' & -> & _).
    reflexivity.
Qed.

(** ** Draining *)

Lemma collect_pulled (bound i : nat) (acc : list Record.Record) (c : Collection) :
  i <= __len__ c ->
  length (all_records c) - i < bound ->
  snd (collect bound (Running i) acc c)
  = pulled (S (length (remaining (_rows c)))) c.
Proof.
  revert i acc c. induction bound as [| bound IH]; intros i acc c Hi Hb; [lia |].
  assert (Hall : length (all_records c)
                 = __len__ c + length (remaining (_rows c)))
    by (unfold all_records, __len__; apply length_app).
  cbn [collect iter_next].
  destruct (Nat.ltb_spec i (__len__ c)) as [Hlt | Hge].
  - destruct (getitem_int_cached i c Hlt) as (r & _ & ->).
    apply IH; lia.
  - destruct (remaining (_rows c)) as [| r rest] eqn:Er.
    + pose proof (next_exhausted c Er) as E. rewrite E. cbn [snd length pulled].
      unfold next in E. rewrite E. reflexivity.
    + pose proof (next_record c r rest Er) as E. rewrite E.
      match goal with |- context [collect bound _ _ ?d] => set (c1 := d) in * end.
      assert (Hc1 : __len__ c1 = S (__len__ c)).
      { unfold __len__, c1. cbn. rewrite length_app. cbn. lia. }
      assert (Hall1 : length (all_records c1) = length (all_records c)).
      { unfold all_records, c1. cbn [_all_rows _rows remaining].
        rewrite Er, !length_app. cbn [length]. lia. }
      rewrite IH by (cbn [length] in *; lia).
      change (remaining (_rows c1)) with rest. cbn [length pulled].
      unfold next in E. rewrite E. reflexivity.
Qed.

(** X11.  [all] returns every record in the producer's order, as records or
    as dictionaries, and leaves the producer drained: everything is cached,
    [len] is the number of records, [pending] is [False], and the producer
    was asked once per record not cached before and once more for the
    end. *)
Theorem all_drains (as_dict ordered : bool) (c : Collection) :
  let c' := snd (all as_dict ordered c) in
  fst (all as_dict ordered c) = Ok (map (as_answer as_dict ordered) (all_records c)) /\
  _all_rows c' = all_records c /\
  __len__ c' = length (all_records c) /\
  remaining (_rows c') = [] /\
  pending c' = false /\
  pulls (_rows c') = pulls (_rows c) + S (length (remaining (_rows c))).
Proof.
  intros c'.
  destruct (all_spec as_dict ordered c) as (c1 & E & _).
  split; [rewrite E; reflexivity |].
  assert (Hc' : c' = pulled (S (length (remaining (_rows c)))) c).
  { unfold c', all, list_self, __iter__.
    rewrite <- (collect_pulled (S (__len__ c + length (remaining (_rows c)))) 0 [] c).
    - destruct (collect _ (Running 0) [] c) as [[rows | e] c2]; reflexivity.
    - lia.
    - unfold all_records, __len__. rewrite length_app. lia. }
  rewrite Hc', pulled_pulls, pulled_beyond by lia.
  unfold __len__, all_records. cbn [_all_rows _rows remaining pending].
  repeat split.
Qed.

(** X12.  On a collection of exactly one record [one] returns that record,
    whatever [default] is, and by then the producer has been found
    exhausted. *)
Theorem one_single_row (c : Collection) (r : Record.Record)
        (default : value) (as_dict ordered : bool) :
  all_records c = [r] ->
  fst (one default as_dict ordered c) = Ok (as_answer as_dict ordered r) /\
  _all_rows (snd (one default as_dict ordered c)) = [r] /\
  pending (snd (one default as_dict ordered c)) = false.
Proof.
  intros Hr.
  destruct (one_spec default as_dict ordered c) as (c' & E & Hx & _).
  rewrite E, Hr. cbn [fst snd]. split; [reflexivity |].
  (* [self[1]] runs the loop past the only record *)
  assert (Hone : snd (one default as_dict ordered c)
                 = snd (first default as_dict ordered (snd (getitem_int 1 c)))).
  { unfold one.
    destruct (getitem_int_nat 1 c) as (c1 & E1 & _).
    change (Z.of_nat 1) with 1%Z in E1. rewrite E1, Hr. reflexivity. }
  rewrite E in Hone. cbn [snd] in Hone.
  pose proof (proj1 (index_pulls_aux 1 c)) as Hp. cbv zeta in Hp.
  change (Z.of_nat 1) with 1%Z in Hp.
  assert (Hk : Nat.min (2 - __len__ c) (S (length (remaining (_rows c))))
               = S (length (remaining (_rows c)))).
  { assert (Hl : __len__ c + length (remaining (_rows c)) = 1).
    { unfold __len__. rewrite <- length_app. fold (all_records c). rewrite Hr.
      reflexivity. }
    lia. }
  rewrite Hk, pulled_beyond in Hp by lia.
  fold (all_records c) in Hp. rewrite Hr in Hp.
  pose proof (first_spec default as_dict ordered (snd (getitem_int 1 c)))
    as (c2 & E2 & (taken & Ha & Hrem & _) & _).
  rewrite E2 in Hone. cbn [snd] in Hone. subst c2.
  rewrite Hp in Ha, Hrem. cbn [_all_rows _rows remaining] in Ha, Hrem.
  symmetry in Hrem. apply app_eq_nil in Hrem. destruct Hrem as [-> _].
  rewrite app_nil_r in Ha. split; [exact Ha |].
  (* and [pending] was cleared by then *)
  assert (Hfs : snd (first default as_dict ordered (snd (getitem_int 1 c)))
                = snd (getitem_int 0 (snd (getitem_int 1 c)))).
  { unfold first.
    destruct (getitem_int 0 (snd (getitem_int 1 c))) as [[r0 | e] c3];
      [reflexivity |].
    destruct e; try reflexivity. destruct (_is_exception default); reflexivity. }
  rewrite E2 in Hfs. cbn [snd] in Hfs. rewrite Hfs, getitem_int_state.
  apply pulled_pending. rewrite Hp. reflexivity.
Qed.

Lemma one_single_row_witness :
  let c := __init__ (iter_of [Samples.row 7]) in
  all_records c = [Samples.row 7] /\
  fst (one (VExcClass "Exception") false false c) = Ok (ARecord (Samples.row 7)) /\
  _all_rows (snd (one (VExcClass "Exception") false false c)) = [Samples.row 7] /\
  pending (snd (one (VExcClass "Exception") false false c)) = false.
Proof.
  cbv zeta. split; [reflexivity |].
  apply (one_single_row (__init__ (iter_of [Samples.row 7])) (Samples.row 7)).
  reflexivity.
Defined.

(** X13.  [scalar] is the first column of the only record; it raises
    [IndexError] when that record has no columns and [ValueError] when there
    are two or more records, and it returns [default] unchanged when there
    are none. *)
Theorem scalar_cases (c : Collection) (default : value) :
  (all_records c = [] -> fst (scalar default c) = Ok default) /\
  (forall r, all_records c = [r] ->
             fst (scalar default c) = list_getitem (Record.values r) 0 /\
             (Record.values r = [] -> fst (scalar default c) = Err IndexError) /\
             (forall v vs, Record.values r = v :: vs -> fst (scalar default c) = Ok v)) /\
  (2 <= length (all_records c) ->
   fst (scalar default c) = Err (ValueError more_than_one_row)).
Proof.
  destruct (scalar_spec default c) as (c' & -> & _). cbn [fst].
  split; [intros ->; reflexivity |]. split.
  - intros r ->. cbn [Record.__getitem__]. split; [reflexivity |].
    rewrite list_getitem_head. split.
    + intros ->. reflexivity.
    + intros v vs ->. reflexivity.
  - destruct (all_records c) as [| r [| r' rest]]; cbn [length]; intros H;
      [lia | lia | reflexivity].
Qed.

Lemma scalar_cases_witness :
  all_records (__init__ (iter_of [Samples.row 7])) = [Samples.row 7] /\
  fst (scalar VNone (__init__ (iter_of [Samples.row 7]))) = Ok (VInt 7) /\
  2 <= length (all_records (__init__ (iter_of [Samples.row 0; Samples.row 1]))) /\
  fst (scalar VNone (__init__ (iter_of [Samples.row 0; Samples.row 1])))
  = Err (ValueError more_than_one_row).
Proof.
  split; [reflexivity |]. split.
  - apply (proj2 (proj2 (proj1 (proj2 (scalar_cases
             (__init__ (iter_of [Samples.row 7])) VNone))
             (Samples.row 7) eq_refl)) (VInt 7) []).
    reflexivity.
  - split; [cbn; lia |].
    apply (proj2 (proj2 (scalar_cases
             (__init__ (iter_of [Samples.row 0; Samples.row 1])) VNone))).
    cbn. lia.
Defined.

(** ** Every change is a call of [__next__] *)

Lemma fetch_pulls (start stop : option Z) (c : Collection) :
  exists n, snd (fetch start stop c) = pulled n c.
Proof.
  destruct stop as [s |].
  - eexists. rewrite <- (fill_pulled (S (length (remaining (_rows c)))) s c) by lia.
    unfold fetch.
    destruct (fill (S (length (remaining (_rows c)))) (Some s) c) as [[u | e] c'];
      reflexivity.
  - exists 0. unfold fetch. rewrite fill_unbounded_stop. reflexivity.
Qed.

Lemma getitem_pulls (k : key) (c : Collection) :
  exists n, snd (__getitem__ k c) = pulled n c.
Proof.
  destruct k as [i | start stop]; cbn [__getitem__].
  - exists (Nat.min (Z.to_nat (i + 1 - Z.of_nat (__len__ c)))
                    (S (length (remaining (_rows c))))).
    rewrite <- getitem_int_state.
    destruct (getitem_int i c) as [[r | e] c']; reflexivity.
  - destruct (fetch_pulls start stop c) as [n Hn]. exists n. rewrite <- Hn.
    unfold getitem_slice.
    destruct (fetch start stop c) as [[rows | e] c']; reflexivity.
Qed.

Lemma first_state (default : value) (as_dict ordered : bool) (c : Collection) :
  snd (first default as_dict ordered c) = snd (getitem_int 0 c).
Proof.
  unfold first. destruct (getitem_int 0 c) as [[r | e] c']; [reflexivity |].
  destruct e; try reflexivity. destruct (_is_exception default); reflexivity.
Qed.

Lemma one_pulls (default : value) (as_dict ordered : bool) (c : Collection) :
  exists n, snd (one default as_dict ordered c) = pulled n c.
Proof.
  unfold one. pose proof (getitem_int_state 1 c) as H1.
  destruct (getitem_int 1 c) as [[r | e] c1]; cbn [snd] in H1.
  - eexists. exact H1.
  - destruct e; try (eexists; exact H1).
    rewrite first_state, getitem_int_state, H1, <- pulled_add.
    eexists. reflexivity.
Qed.

Lemma scalar_state (default : value) (c : Collection) :
  snd (scalar default c) = snd (one VNone false false c).
Proof.
  unfold scalar. destruct (one VNone false false c) as [[a | e] c']; [| reflexivity].
  destruct a as [r | o d | v]; try reflexivity. destruct v; reflexivity.
Qed.

Lemma iter_next_pulls (it : iterator) (c : Collection) :
  exists n, snd (iter_next it c) = pulled n c.
Proof.
  destruct it as [i |]; cbn [iter_next]; [| exists 0; reflexivity].
  destruct (i <? __len__ c)%nat.
  - pose proof (getitem_int_state (Z.of_nat i) c) as H.
    destruct (getitem_int (Z.of_nat i) c) as [[r | e] c']; eexists; exact H.
  - exists 1. cbn [pulled]. unfold next.
    destruct (__next__ c) as [[r | e] c']; [reflexivity |].
    destruct e; reflexivity.
Qed.

Lemma collect_pulls (bound : nat) (it : iterator) (acc : list Record.Record)
      (c : Collection) :
  exists n, snd (collect bound it acc c) = pulled n c.
Proof.
  revert it acc c. induction bound as [| bound IH]; intros it acc c.
  - exists 0. reflexivity.
  - cbn [collect]. destruct (iter_next_pulls it c) as [n Hn].
    destruct (iter_next it c) as [[[r | e] it'] c1]; cbn [snd] in Hn.
    + destruct (IH it' (acc ++ [r]) c1) as [m Hm].
      exists (n + m). rewrite pulled_add, <- Hn. exact Hm.
    + exists n. destruct e; exact Hn.
Qed.

Lemma cursors_next_pulls (k : nat) (cus : list cursor) (c : Collection) :
  exists n, snd (cursors_next k cus c) = pulled n c.
Proof.
  revert k. induction cus as [| cu rest IH]; intros k.
  - exists 0. destruct k; reflexivity.
  - destruct k as [| k]; cbn [cursors_next].
    + destruct (iter_next_pulls (state cu) c) as [n Hn]. exists n.
      unfold cursor_next.
      destruct (iter_next (state cu) c) as [[[r | e] it'] c1]; exact Hn.
    + destruct (IH k) as [n Hn]. exists n.
      destruct (cursors_next k rest c) as [rest' c']. exact Hn.
Qed.

Lemma exec_pulls (o : call) (s : program_state) :
  exists n, coll (exec o s) = pulled n (coll s).
Proof.
  destruct o as [| k | | k | d a o | d a o | d | a o |]; cbn [exec coll].
  - exists 0. reflexivity.
  - destruct (cursors_next_pulls k (cursors s) (coll s)) as [n Hn]. exists n.
    destruct (cursors_next k (cursors s) (coll s)) as [cus c']. exact Hn.
  - exists 1. reflexivity.
  - apply getitem_pulls.
  - rewrite first_state, getitem_int_state. eexists. reflexivity.
  - apply one_pulls.
  - rewrite scalar_state. apply one_pulls.
  - unfold all, list_self.
    destruct (collect_pulls (S (__len__ (coll s) + length (remaining (_rows (coll s)))))
                            (__iter__ (coll s)) [] (coll s)) as [n Hn].
    exists n. rewrite <- Hn.
    destruct (collect _ (__iter__ (coll s)) [] (coll s)) as [[rows | e] c']; reflexivity.
  - exists 0. reflexivity.
Qed.

(** X14.  Whatever a program calls, in whatever order, the collection it
    ends with is the one it started with after some number of calls of
    [__next__]: no method touches the cache, the producer or the flag in any
    other way.  The producer was pulled that many times, and a [pending]
    flag that was [False] stays [False]. *)
Theorem calls_only_pull (os : list call) (s : program_state) :
  exists n,
    coll (run os s) = pulled n (coll s) /\
    pulls (_rows (coll (run os s))) = pulls (_rows (coll s)) + n /\
    (pending (coll s) = false -> pending (coll (run os s)) = false).
Proof.
  assert (H : exists n, coll (run os s) = pulled n (coll s)).
  { revert s. induction os as [| o os IH]; intros s.
    - exists 0. reflexivity.
    - cbn [run fold_left]. fold (run os (exec o s)).
      destruct (exec_pulls o s) as [n Hn]. destruct (IH (exec o s)) as [m Hm].
      exists (n + m). rewrite pulled_add, <- Hn. exact Hm. }
  destruct H as [n Hn]. exists n. rewrite Hn.
  split; [reflexivity |]. split; [apply pulled_pulls | apply pulled_pending].
Qed.

Lemma calls_only_pull_witness :
  let s := start (snd (next (__init__ (iter_of [])))) in
  let os := [CallIter; CallNextOf 0; CallFirst VNone false false] in
  pending (coll s) = false /\
  exists n,
    coll (run os s) = pulled n (coll s) /\
    pulls (_rows (coll (run os s))) = pulls (_rows (coll s)) + n /\
    pending (coll (run os s)) = false.
Proof.
  cbv zeta. split; [reflexivity |].
  destruct (calls_only_pull
              [CallIter; CallNextOf 0; CallFirst VNone false false]
              (start (snd (next (__init__ (iter_of []))))))
    as (n & H1 & H2 & H3).
  exists n. split; [exact H1 |]. split; [exact H2 |]. apply H3. reflexivity.
Defined.

(** X15.  The accessors are lazy: [first] leaves at most one record in a
    cache that was empty, [one] and [scalar] at most two, however many the
    producer holds; a cache that was longer is left as it was. *)
Theorem accessors_lazy (c : Collection) (default : value) (as_dict ordered : bool) :
  __len__ (snd (first default as_dict ordered c)) <= Nat.max (__len__ c) 1 /\
  __len__ (snd (one default as_dict ordered c)) <= Nat.max (__len__ c) 2 /\
  __len__ (snd (scalar default c)) <= Nat.max (__len__ c) 2.
Proof.
  assert (Hidx : forall n c0, __len__ (snd (getitem_int (Z.of_nat n) c0))
                              <= Nat.max (__len__ c0) (S n)).
  { intros n c0. rewrite (proj2 (proj2 (index_pulls_aux n c0))). lia. }
  assert (Hone : forall d a o,
             __len__ (snd (one d a o c)) <= Nat.max (__len__ c) 2).
  { intros d a o. unfold one. pose proof (Hidx 1 c) as H1.
    change (Z.of_nat 1) with 1%Z in H1.
    destruct (getitem_int 1 c) as [[r | e] c1]; cbn [snd] in *; [exact H1 |].
    destruct e; try exact H1.
    rewrite first_state. pose proof (Hidx 0 c1) as H0.
    change (Z.of_nat 0) with 0%Z in H0. lia. }
  split; [| split].
  - rewrite first_state. exact (Hidx 0 c).
  - apply Hone.
  - rewrite scalar_state. apply Hone.
Qed.

(** X16.  Calling [next] on the collection itself hands out the producer's
    records one after the other and raises [StopIteration] from then on:
    after [k] calls the next one gives the [k]-th record still in the
    producer, not the first cached one. *)
Theorem next_sequence (k : nat) (c : Collection) :
  fst (__next__ (pulled k c))
  = match nth_error (remaining (_rows c)) k with
    | Some r => Ok r
    | None => Err (StopIteration no_more_rows)
    end.
Proof.
  destruct (Nat.le_gt_cases k (length (remaining (_rows c)))) as [H | H].
  - rewrite (pulled_within k c H).
    rewrite (skipn_nth_error (remaining (_rows c)) k) at 1.
    unfold __next__, producer_next. cbn [_rows remaining].
    destruct (nth_error (remaining (_rows c)) k); reflexivity.
  - rewrite (pulled_beyond k c H).
    assert (E : nth_error (remaining (_rows c)) k = None)
      by (apply nth_error_None; lia).
    rewrite E. reflexivity.
Qed.

(** * Properties of [Database] *)

Section DatabaseProperties.

Import Sql.

Variable fails : list event -> event -> bool.
Variable cursor : list event -> string -> list Record.Record.

Lemma get_connection_closed (w : world) :
  db_open w = false ->
  Database.get_connection fails w = (inr (ResourceClosedError "db closed"), w).
Proof.
  intros H. unfold Database.get_connection. rewrite H. reflexivity.
Qed.

Lemma get_connection_open (w : world) :
  db_open w = true ->
  fails (log w) Connect = false ->
  Database.get_connection fails w
  = (inl tt, {| log := log w ++ [Connect]; db_open := true |}).
Proof.
  intros Ho Hc. unfold Database.get_connection, call. rewrite Ho, Hc. reflexivity.
Qed.

(** X17.  On a database that has been closed, [get_connection], [execute],
    [query] and [transaction] raise [ResourceClosedError] at once: the
    engine is not called and the body of the transaction does not run. *)
Theorem closed_database_refuses (w : world) (q : string) (body : M unit) :
  db_open w = false ->
  Database.get_connection fails w = (inr (ResourceClosedError "db closed"), w) /\
  Database.execute fails q w = (inr (ResourceClosedError "db closed"), w) /\
  Database.query fails cursor q w = (inr (ResourceClosedError "db closed"), w) /\
  Database.transaction fails body w = (inr (ResourceClosedError "db closed"), w).
Proof.
  intros H. pose proof (get_connection_closed w H) as E.
  unfold Database.execute, Database.query, Database.transaction, bind.
  rewrite E. repeat split.
Qed.

(** X18.  [Database.execute] on an open database whose engine gives a
    connection closes that connection whether the statement raises or not:
    the calls are [connect], [execute], [close], in that order, and the
    exception of the statement goes on to the caller unless [close] raises
    one itself. *)
Theorem execute_closes_connection (w : world) (q : string) :
  db_open w = true ->
  fails (log w) Connect = false ->
  log (snd (Database.execute fails q w)) = log w ++ [Connect; Execute q; Close] /\
  db_open (snd (Database.execute fails q w)) = true /\
  fst (Database.execute fails q w)
  = if fails (log w ++ [Connect; Execute q]) Close then inr (LibraryError Close)
    else if fails (log w ++ [Connect]) (Execute q) then inr (LibraryError (Execute q))
         else inl tt.
Proof.
  intros Ho Hc. unfold Database.execute, bind.
  rewrite (get_connection_open w Ho Hc).
  unfold Connection.with_, try_finally, Connection.execute, Connection.close, call.
  cbn [log db_open].
  destruct (fails (log w ++ [Connect]) (Execute q)); cbn [log db_open];
    rewrite <- !app_assoc; cbn [app];
    destruct (fails (log w ++ [Connect; Execute q]) Close); cbn [fst snd log db_open];
    rewrite <- ?app_assoc; repeat split.
Qed.

(** X19.  [Database.query] hands back its collection only after the
    connection it used has been closed, and with nothing pulled from the
    cursor: every row is fetched after [close]. *)
Theorem query_returns_after_close (w : world) (q : string) :
  db_open w = true ->
  fails (log w) Connect = false ->
  fails (log w ++ [Connect]) (Execute q) = false ->
  fails (log w ++ [Connect; Execute q]) Close = false ->
  exists c,
    Database.query fails cursor q w
    = (inl c, {| log := log w ++ [Connect; Execute q; Close]; db_open := true |}) /\
    Collection.all_records c = cursor (log w ++ [Connect; Execute q]) q /\
    Collection._all_rows c = [] /\
    Collection.pulls (Collection._rows c) = 0 /\
    Collection.pending c = true.
Proof.
  intros Ho Hc He Hcl. eexists. unfold Database.query, bind.
  rewrite (get_connection_open w Ho Hc).
  unfold Connection.with_, try_finally, Connection.query, Connection.close, bind, call.
  cbn [log db_open]. rewrite He. cbn [log db_open].
  rewrite <- !app_assoc. cbn [app]. rewrite Hcl.
  repeat split.
Qed.

(** X20.  A transaction on an open database, once [connect] and [begin]
    have gone through, ends with [close] on every path, after [commit] when
    the body returned, [rollback] when the body raised, and both when
    [commit] raised. *)
Theorem transaction_trace (w : world) (body : M unit) :
  db_open w = true ->
  fails (log w) Connect = false ->
  fails (log w ++ [Connect]) Begin = false ->
  let w0 := {| log := log w ++ [Connect; Begin]; db_open := true |} in
  log (snd (Database.transaction fails body w))
  = log (snd (body w0)) ++
    match fst (body w0) with
    | inl _ => if fails (log (snd (body w0))) Commit
               then [Commit; Rollback; Close]
               else [Commit; Close]
    | inr _ => [Rollback; Close]
    end.
Proof.
  intros Ho Hc Hb w0. unfold Database.transaction, bind.
  rewrite (get_connection_open w Ho Hc).
  unfold Connection.transaction, call at 1. cbn [log db_open]. rewrite Hb.
  rewrite <- app_assoc. cbn [app]. fold w0.
  unfold try_finally, try_except, bind, Connection.close, call.
  destruct (body w0) as [[u | e] w1]; cbn [fst snd log db_open].
  - destruct (fails (log w1) Commit); cbn [log db_open].
    + destruct (fails (log w1 ++ [Commit]) Rollback); cbn [log db_open];
        destruct (fails _ Close); cbn [snd log];
        rewrite <- !app_assoc; reflexivity.
    + destruct (fails _ Close); cbn [snd log]; rewrite <- !app_assoc; reflexivity.
  - destruct (fails (log w1) Rollback); cbn [log db_open];
      destruct (fails _ Close); cbn [snd log]; rewrite <- !app_assoc; reflexivity.
Qed.

(** X21.  When [rollback] and [close] do not raise, a transaction that got
    its connection and began never raises: an exception of the body, or of
    [commit], is rolled back and then dropped, not passed on to the
    caller. *)
Theorem transaction_swallows (w : world) (body : M unit) :
  db_open w = true ->
  fails (log w) Connect = false ->
  fails (log w ++ [Connect]) Begin = false ->
  (forall l, fails l Rollback = false) ->
  (forall l, fails l Close = false) ->
  fst (Database.transaction fails body w) = inl tt.
Proof.
  intros Ho Hc Hb Hr Hcl. unfold Database.transaction, bind.
  rewrite (get_connection_open w Ho Hc).
  unfold Connection.transaction, call at 1. cbn [log db_open]. rewrite Hb.
  unfold try_finally, try_except, bind, Connection.close, call.
  destruct (body _) as [[u | e] w1]; cbn [log db_open].
  - destruct (fails (log w1) Commit); cbn [log db_open];
      rewrite ?Hr; cbn [log db_open]; rewrite Hcl; [reflexivity |].
    destruct u. reflexivity.
  - rewrite Hr. cbn [log db_open]. rewrite Hcl. reflexivity.
Qed.

End DatabaseProperties.

Lemma closed_database_refuses_witness :
  let w := {| Sql.log := [Sql.Connect; Sql.Close; Sql.Dispose]; Sql.db_open := false |} in
  Sql.db_open w = false /\
  Database.execute (fun _ _ => false) "SELECT 1" w
  = (inr (Sql.ResourceClosedError "db closed"), w).
Proof.
  cbv zeta. split; [reflexivity |].
  apply (closed_database_refuses (fun _ _ => false) (fun _ _ => [])
           _ "SELECT 1" (Sql.ret tt)).
  reflexivity.
Defined.

Lemma execute_closes_connection_witness :
  let w := {| Sql.log := []; Sql.db_open := true |} in
  let fails := fun (_ : list Sql.event) (e : Sql.event) =>
                 match e with Sql.Execute _ => true | _ => false end in
  Sql.db_open w = true /\
  fails (Sql.log w) Sql.Connect = false /\
  Sql.log (snd (Database.execute fails "DROP TABLE foo" w))
  = [Sql.Connect; Sql.Execute "DROP TABLE foo"; Sql.Close].
Proof.
  cbv zeta. split; [reflexivity |]. split; [reflexivity |].
  apply (execute_closes_connection
           (fun _ e => match e with Sql.Execute _ => true | _ => false end)
           {| Sql.log := []; Sql.db_open := true |} "DROP TABLE foo");
    reflexivity.
Defined.

Lemma query_returns_after_close_witness :
  let w := {| Sql.log := []; Sql.db_open := true |} in
  let q := "SELECT id FROM foo" in
  exists c,
    Database.query (fun _ _ => false) (fun _ _ => [Samples.row 42; Samples.row 43]) q w
    = (inl c, {| Sql.log := [Sql.Connect; Sql.Execute q; Sql.Close];
                 Sql.db_open := true |}) /\
    Collection.all_records c = [Samples.row 42; Samples.row 43] /\
    Collection._all_rows c = [] /\
    Collection.pulls (Collection._rows c) = 0 /\
    Collection.pending c = true.
Proof.
  cbv zeta.
  apply (query_returns_after_close
           (fun _ _ => false) (fun _ _ => [Samples.row 42; Samples.row 43])
           {| Sql.log := []; Sql.db_open := true |} "SELECT id FROM foo");
    reflexivity.
Defined.

Lemma transaction_trace_witness :
  let w := {| Sql.log := []; Sql.db_open := true |} in
  let body : Sql.M unit := fun w => (inr (Sql.UserError "ValueError"), w) in
  Sql.log (snd (Database.transaction (fun _ _ => false) body w))
  = [Sql.Connect; Sql.Begin; Sql.Rollback; Sql.Close].
Proof.
  cbv zeta.
  apply (transaction_trace (fun _ _ => false)
           {| Sql.log := []; Sql.db_open := true |}
           (fun w => (inr (Sql.UserError "ValueError"), w)));
    reflexivity.
Defined.

Lemma transaction_swallows_witness :
  let w := {| Sql.log := []; Sql.db_open := true |} in
  let body : Sql.M unit := fun w => (inr (Sql.UserError "ValueError"), w) in
  fst (body {| Sql.log := [Sql.Connect; Sql.Begin]; Sql.db_open := true |})
  = inr (Sql.UserError "ValueError") /\
  fst (Database.transaction (fun _ _ => false) body w) = inl tt.
Proof.
  cbv zeta. split; [reflexivity |].
  apply (transaction_swallows (fun _ _ => false)
           {| Sql.log := []; Sql.db_open := true |}
           (fun w => (inr (Sql.UserError "ValueError"), w)));
    reflexivity.
Defined.

Section DatabaseLifecycle.

Import Sql.

Variable fails : list event -> event -> bool.

(** X22.  [Database.close] disposes of the engine and then clears [open],
    after which [execute] raises [ResourceClosedError]; when [dispose]
    raises, the flag is left set.  [with db: body] closes the database when
    the block is left, whether [body] raised or not. *)
Theorem database_close (w : world) (q : string) (body : M unit) :
  (fails (log w) Dispose = false ->
   let w' := snd (Database.close fails w) in
   fst (Database.close fails w) = inl tt /\
   log w' = log w ++ [Dispose] /\
   db_open w' = false /\
   Database.execute fails q w' = (inr (ResourceClosedError "db closed"), w')) /\
  (fails (log w) Dispose = true ->
   fst (Database.close fails w) = inr (LibraryError Dispose) /\
   db_open (snd (Database.close fails w)) = db_open w) /\
  (fails (log (snd (body w))) Dispose = false ->
   db_open (snd (Database.with_ fails body w)) = false /\
   fst (Database.with_ fails body w) = fst (body w)).
Proof.
  unfold Database.with_, try_finally, Database.close, bind, call.
  split; [| split].
  - intros H. rewrite H. cbn [fst snd log db_open]. repeat split.
  - intros H. rewrite H. cbn [fst snd log db_open]. repeat split.
  - intros H. destruct (body w) as [r w1]. cbn [fst snd] in *. rewrite H.
    cbn [fst snd log db_open]. repeat split.
Qed.

(** X23.  When [begin] raises, [Database.transaction] passes the exception
    on and the connection it got is not closed: the [try] whose [finally]
    closes it has not been entered, and the body does not run. *)
Theorem transaction_begin_fails (w : world) (body : M unit) :
  db_open w = true ->
  fails (log w) Connect = false ->
  fails (log w ++ [Connect]) Begin = true ->
  Database.transaction fails body w
  = (inr (LibraryError Begin),
     {| log := log w ++ [Connect; Begin]; db_open := true |}).
Proof.
  intros Ho Hc Hb. unfold Database.transaction, bind.
  rewrite (get_connection_open fails w Ho Hc).
  unfold Connection.transaction, call. cbn [log db_open]. rewrite Hb.
  rewrite <- app_assoc. reflexivity.
Qed.

End DatabaseLifecycle.

Lemma database_close_witness :
  let w := {| Sql.log := []; Sql.db_open := true |} in
  let w' := snd (Database.close (fun _ _ => false) w) in
  Sql.db_open w' = false /\
  Database.execute (fun _ _ => false) "SELECT 1" w'
  = (inr (Sql.ResourceClosedError "db closed"), w').
Proof.
  cbv zeta.
  destruct (proj1 (database_close (fun _ _ => false)
                     {| Sql.log := []; Sql.db_open := true |} "SELECT 1" (Sql.ret tt))
                  eq_refl) as (_ & _ & H1 & H2).
  split; [exact H1 | exact H2].
Defined.

Lemma transaction_begin_fails_witness :
  let w := {| Sql.log := []; Sql.db_open := true |} in
  let fails := fun (_ : list Sql.event) (e : Sql.event) =>
                 match e with Sql.Begin => true | _ => false end in
  Database.transaction fails (Sql.ret tt) w
  = (inr (Sql.LibraryError Sql.Begin),
     {| Sql.log := [Sql.Connect; Sql.Begin]; Sql.db_open := true |}).
Proof.
  cbv zeta.
  apply (transaction_begin_fails
           (fun _ e => match e with Sql.Begin => true | _ => false end)
           {| Sql.log := []; Sql.db_open := true |} (Sql.ret tt));
    reflexivity.
Defined.

(** * The account of the pulls *)

(** The exact state after [self[start:stop]] has run its loop. *)
Lemma fetch_state (start : option Z) (s : Z) (c : Collection) :
  snd (fetch start (Some s) c)
  = pulled (Nat.min (Z.to_nat (s - Z.of_nat (__len__ c)))
                    (S (length (remaining (_rows c))))) c.
Proof.
  rewrite <- (fill_pulled (S (length (remaining (_rows c)))) s c) by lia.
  unfold fetch.
  destruct (fill (S (length (remaining (_rows c)))) (Some s) c) as [[u | e] c'];
    reflexivity.
Qed.

(** A loop that wants [x] more records gets [StopIteration] from the
    producer exactly when fewer than [x] are left. *)
Lemma pulled_min_stops (x : nat) (c : Collection) :
  stops (_rows (pulled (Nat.min x (S (length (remaining (_rows c))))) c))
  = stops (_rows c) + (if (length (remaining (_rows c)) <? x)%nat then 1 else 0).
Proof.
  destruct (Nat.ltb_spec (length (remaining (_rows c))) x) as [Hlt | Hge].
  - rewrite Nat.min_r by lia. rewrite pulled_beyond by lia.
    cbn [stops _rows]. lia.
  - rewrite Nat.min_l by lia. rewrite pulled_within by lia.
    cbn [stops _rows]. lia.
Qed.

Lemma getitem_int_stops (n : nat) (c : Collection) :
  stops (_rows (snd (getitem_int (Z.of_nat n) c)))
  = stops (_rows c) + (if (length (all_records c) <? S n)%nat then 1 else 0).
Proof.
  rewrite getitem_int_state, pulled_min_stops.
  unfold all_records, __len__. rewrite length_app.
  destruct (Nat.ltb_spec (length (remaining (_rows c)))
                         (Z.to_nat (Z.of_nat n + 1 - Z.of_nat (length (_all_rows c)))));
    destruct (Nat.ltb_spec (length (_all_rows c) + length (remaining (_rows c))) (S n));
    lia.
Qed.

Lemma getitem_slice_stops (start : option Z) (b : nat) (c : Collection) :
  stops (_rows (snd (getitem_slice start (Some (Z.of_nat b)) c)))
  = stops (_rows c) + (if (length (all_records c) <? b)%nat then 1 else 0).
Proof.
  assert (E : snd (getitem_slice start (Some (Z.of_nat b)) c)
              = snd (fetch start (Some (Z.of_nat b)) c)).
  { unfold getitem_slice.
    destruct (fetch start (Some (Z.of_nat b)) c) as [[rows | e] c']; reflexivity. }
  rewrite E, fetch_state, pulled_min_stops.
  unfold all_records, __len__. rewrite length_app.
  destruct (Nat.ltb_spec (length (remaining (_rows c)))
                         (Z.to_nat (Z.of_nat b - Z.of_nat (length (_all_rows c)))));
    destruct (Nat.ltb_spec (length (_all_rows c) + length (remaining (_rows c))) b);
    lia.
Qed.

Lemma iter_next_at_end (i : nat) (c : Collection) :
  __len__ c <= i ->
  remaining (_rows c) = [] ->
  iter_next (Running i) c = (Err (StopIteration ""), Finished, stopped c).
Proof.
  intros Hi Hr. cbn [iter_next].
  destruct (Nat.ltb_spec i (__len__ c)) as [H | _]; [lia |].
  rewrite (next_exhausted c Hr). reflexivity.
Qed.

Lemma all_state (as_dict ordered : bool) (c : Collection) :
  snd (all as_dict ordered c) = pulled (S (length (remaining (_rows c)))) c.
Proof.
  unfold all, list_self, __iter__.
  rewrite <- (collect_pulled (S (__len__ c + length (remaining (_rows c)))) 0 [] c).
  - destruct (collect _ (Running 0) [] c) as [[rows | e] c2]; reflexivity.
  - lia.
  - unfold all_records, __len__. rewrite length_app. lia.
Qed.

Lemma first_stops (default : value) (as_dict ordered : bool) (c : Collection) :
  stops (_rows (snd (first default as_dict ordered c)))
  = stops (_rows c) + match length (all_records c) with 0 => 1 | _ => 0 end.
Proof.
  rewrite first_state. change 0%Z with (Z.of_nat 0). rewrite getitem_int_stops.
  destruct (length (all_records c)); reflexivity.
Qed.

Lemma one_stops (default : value) (as_dict ordered : bool) (c : Collection) :
  stops (_rows (snd (one default as_dict ordered c)))
  = stops (_rows c) + match length (all_records c) with
                      | 0 => 2
                      | 1 => 1
                      | _ => 0
                      end.
Proof.
  pose proof (getitem_int_stops 1 c) as H1.
  destruct (getitem_int_nat 1 c) as (c1 & E & Hx & _).
  change (Z.of_nat 1) with 1%Z in *. unfold one. rewrite E in *. cbn [snd] in H1.
  pose proof (extends_all_records _ _ Hx) as Ha.
  destruct (all_records c) as [| r [| r' rest]] eqn:Er; cbn [nth_error length] in *.
  - rewrite first_stops, Ha, H1. cbn. lia.
  - rewrite first_stops, Ha, H1. cbn. lia.
  - cbn [snd]. rewrite H1. cbn. lia.
Qed.

Lemma run_pulls (os : list call) (s : program_state) :
  exists n, coll (run os s) = pulled n (coll s).
Proof.
  revert s. induction os as [| o os IH]; intros s.
  - exists 0. reflexivity.
  - cbn [run fold_left]. fold (run os (exec o s)).
    destruct (exec_pulls o s) as [n Hn]. destruct (IH (exec o s)) as [m Hm].
    exists (n + m). rewrite pulled_add, <- Hn. exact Hm.
Qed.

(** C2, as the code has it.  For a collection made from a producer of the
    records [rows], after any calls in any order: the pulls that returned a
    record are as many as the cache has entries, the cache is the first that
    many of [rows] and the producer holds the rest, so no record is pulled
    twice and at most [length rows] pulls return one.

    The pulls that raised [StopIteration] come on top and are not limited to
    one.  The program has made some number [n] of calls of [__next__], and
    each of them pulled: [n] pulls in all, [min n N] of them with a record
    and the other [n - N] with [StopIteration].  From there, of [m] further
    calls of [__next__] every one past the records left pulls the exhausted
    producer again, and so does every operation that runs past the last
    record: [__next__] and a generator at the end once the producer is
    empty, an index or a slice bound beyond the last record, [all], [first]
    on no records, [one] and [scalar] on at most one (twice on none, for
    [self[1]] and then [self[0]]). *)
Theorem records_pulled_once (rows : list Record.Record) (os : list call) :
  let c := coll (run os (start (__init__ (iter_of rows)))) in
  yielded (_rows c) = length (_all_rows c) /\
  _all_rows c = firstn (yielded (_rows c)) rows /\
  rows = _all_rows c ++ remaining (_rows c) /\
  yielded (_rows c) <= length rows /\
  pulls (_rows c) = length (_all_rows c) + stops (_rows c) /\
  (exists n,
      c = pulled n (__init__ (iter_of rows)) /\
      pulls (_rows c) = n /\
      yielded (_rows c) = Nat.min n (length rows) /\
      stops (_rows c) = n - length rows) /\
  (forall m,
      stops (_rows (pulled m c))
      = stops (_rows c) + (m - length (remaining (_rows c)))) /\
  (remaining (_rows c) = [] ->
   fst (__next__ c) = Err (StopIteration no_more_rows) /\
   stops (_rows (snd (__next__ c))) = S (stops (_rows c)) /\
   (forall i, __len__ c <= i ->
              stops (_rows (snd (iter_next (Running i) c))) = S (stops (_rows c)))) /\
  (forall n, length rows <= n ->
             fst (getitem_int (Z.of_nat n) c) = Err IndexError /\
             stops (_rows (snd (getitem_int (Z.of_nat n) c))) = S (stops (_rows c))) /\
  (forall start b,
      length rows < b ->
      stops (_rows (snd (getitem_slice start (Some (Z.of_nat b)) c)))
      = S (stops (_rows c))) /\
  (forall as_dict ordered,
      stops (_rows (snd (all as_dict ordered c))) = S (stops (_rows c))) /\
  (forall default as_dict ordered,
      stops (_rows (snd (first default as_dict ordered c)))
      = stops (_rows c) + match length rows with 0 => 1 | _ => 0 end) /\
  (forall default as_dict ordered,
      stops (_rows (snd (one default as_dict ordered c)))
      = stops (_rows c) + match length rows with 0 => 2 | 1 => 1 | _ => 0 end) /\
  (forall default,
      stops (_rows (snd (scalar default c)))
      = stops (_rows c) + match length rows with 0 => 2 | 1 => 1 | _ => 0 end).
Proof.
  cbv zeta.
  destruct (run_from_start (__init__ (iter_of rows)) os) as (_ & Hx & _).
  destruct (run_pulls os (start (__init__ (iter_of rows)))) as [n Hn].
  cbn [start coll] in Hn.
  pose proof (extends_all_records _ _ Hx) as Hall.
  destruct Hx as (taken & Ha & Hr & Hy & _).
  revert Ha Hr Hy Hn Hall.
  generalize (coll (run os (start (__init__ (iter_of rows))))).
  intros c Ha Hr Hy Hn Hall. cbn in Ha, Hr, Hy, Hall.
  assert (Hlen : yielded (_rows c) = length (_all_rows c))
    by (rewrite Ha, Hy; reflexivity).
  split; [exact Hlen |].
  split; [rewrite Hlen, Ha, Hr, firstn_app, Nat.sub_diag, firstn_all, firstn_O, app_nil_r;
          reflexivity |].
  split; [rewrite Ha, Hr; reflexivity |].
  split; [rewrite Hy, Hr, length_app; lia |].
  split; [unfold pulls; rewrite Hlen; reflexivity |].
  split.
  { exists n. split; [exact Hn |]. rewrite Hn.
    split; [rewrite pulled_pulls; reflexivity |].
    destruct (Nat.le_gt_cases n (length rows)) as [H | H].
    - rewrite pulled_within by exact H. cbn [_rows yielded stops iter_of __init__].
      lia.
    - rewrite pulled_beyond by exact H. cbn [_rows yielded stops remaining iter_of __init__].
      lia. }
  split.
  { intros m. destruct (Nat.le_gt_cases m (length (remaining (_rows c)))) as [H | H].
    - rewrite pulled_within by exact H. cbn [_rows stops]. lia.
    - rewrite pulled_beyond by exact H. cbn [_rows stops]. lia. }
  split.
  { intros He. pose proof (next_exhausted c He) as E. unfold next in E.
    rewrite E. cbn [fst snd]. split; [reflexivity |]. split; [reflexivity |].
    intros i Hi. rewrite (iter_next_at_end i c Hi He). reflexivity. }
  split.
  { intros k Hk. split.
    - destruct (getitem_int_nat k c) as (c' & -> & _). cbn [fst].
      assert (E : nth_error (all_records c) k = None)
        by (apply nth_error_None; rewrite Hall; exact Hk).
      rewrite E. reflexivity.
    - rewrite getitem_int_stops, Hall.
      destruct (Nat.ltb_spec (length rows) (S k)); lia. }
  split.
  { intros st b Hb. rewrite getitem_slice_stops, Hall.
    destruct (Nat.ltb_spec (length rows) b); lia. }
  split.
  { intros a o. rewrite all_state, pulled_beyond by lia. cbn [_rows stops]. lia. }
  split; [intros d a o; rewrite first_stops, Hall; reflexivity |].
  split; [intros d a o; rewrite one_stops, Hall; reflexivity |].
  intros d. rewrite scalar_state, one_stops, Hall. reflexivity.
Qed.

Lemma records_pulled_once_witness :
  let rows := [Samples.row 0] in
  let c := coll (run [CallAll false false] (start (__init__ (iter_of rows)))) in
  remaining (_rows c) = [] /\
  length rows <= 1 /\
  stops (_rows c) = 1 /\
  stops (_rows (snd (__next__ c))) = 2 /\
  stops (_rows (snd (getitem_int 1 c))) = 2 /\
  stops (_rows (snd (all false false c))) = 2.
Proof.
  cbv zeta. split; [reflexivity |]. split; [cbn; lia |]. split; [reflexivity |].
  destruct (records_pulled_once [Samples.row 0] [CallAll false false])
    as (_ & _ & _ & _ & _ & _ & _ & Hnext & Hidx & _ & Hall & _).
  split; [exact (proj1 (proj2 (Hnext eq_refl))) |].
  split; [exact (proj2 (Hidx 1 (le_n 1))) |].
  exact (Hall false false).
Defined.
